(** * youtube-idea-generator: the ingestion pipeline of [src/server]

    A shallow embedding of [src/server/youtube-actions.ts] (with the two
    small modules [mutations.ts] and [queries.ts]) and the properties of
    the pipeline that the specification states.

    - JavaScript values of type [string | null | undefined] are [option
      string]; [None] stands for both [null] and [undefined], which the
      code never tells apart ([x !== null ? x : undefined], [x || d],
      [!x]).
    - The upstream YouTube client is a record of response functions, one
      per endpoint the code calls; a rejected promise is [Failed].
    - The database is a record of three tables kept as lists in insertion
      order; predicates are the ones the code passes to [where].
    - Server actions run in a monad that threads the store, a clock and
      the log of upstream requests, and that ends in a returned value, a
      thrown exception or, for the two [do ... while] loops, in
      [OutOfFuel] when the iteration budget is spent. *)

From Stdlib Require Import String Ascii List ZArith Lia Bool Arith.
Import ListNotations.
Local Open Scope string_scope.
Local Open Scope list_scope.

Set Implicit Arguments.

(* ------------------------------------------------------------------ *)
(** ** JavaScript primitives used by the pipeline *)

Module JS.

(** A JavaScript number as far as the pipeline produces one: an integer
    or [NaN] (the result of [parseInt] on a string without digits). *)
Inductive number : Type :=
| Num (z : Z)
| NaN.

(** Exceptions: [new Error(msg)] thrown by the code, and the
    [TypeError] of a property read on [undefined]. *)
Inductive exn : Type :=
| Error (msg : string)
| TypeError (what : string).

(** The result of evaluating an expression that may throw. *)
Inductive completion (A : Type) : Type :=
| Normal (a : A)
| Abrupt (e : exn).
Arguments Abrupt {A} e.

(** [Boolean(x)] for [x : string | null | undefined]. *)
Definition truthy (x : option string) : bool :=
  match x with
  | Some s => negb (s =? "")
  | None => false
  end.

(** [x || d] with a string default. *)
Definition or_default (x : option string) (d : string) : string :=
  match x with
  | Some s => if s =? "" then d else s
  | None => d
  end.

(** [x || null]. *)
Definition or_null (x : option string) : option string :=
  if truthy x then x else None.

Definition is_space (c : ascii) : bool :=
  let n := nat_of_ascii c in
  (n =? 32)%nat || ((9 <=? n)%nat && (n <=? 13)%nat).

Fixpoint trim_start (s : string) : string :=
  match s with
  | String c r => if is_space c then trim_start r else s
  | EmptyString => s
  end.

Definition digit (c : ascii) : option Z :=
  let n := nat_of_ascii c in
  if (48 <=? n)%nat && (n <=? 57)%nat then Some (Z.of_nat (n - 48)) else None.

(** The longest prefix of decimal digits, read as a number; [acc] is
    [None] until a digit has been seen. *)
Fixpoint digits (s : string) (acc : option Z) : option Z :=
  match s with
  | String c r =>
      match digit c with
      | Some d =>
          digits r (Some (10 * match acc with Some a => a | None => 0 end + d)%Z)
      | None => acc
      end
  | EmptyString => acc
  end.

Definition of_digits (o : option Z) (sign : Z) : number :=
  match o with
  | Some z => Num (sign * z)
  | None => NaN
  end.

(** [parseInt(s, 10)]: leading white space is skipped, one sign is
    accepted, the digits that follow are read and the rest is ignored. *)
Definition parseInt (s : string) : number :=
  match trim_start s with
  | String "-"%char r => of_digits (digits r None) (-1)
  | String "+"%char r => of_digits (digits r None) 1
  | t => of_digits (digits t None) 1
  end.

(** A [Date]: [new Date(s)] keeps its argument, [new Date()] the
    reading of the clock. *)
Inductive Date : Type :=
| DateOf (s : option string)
| DateAt (t : nat).

End JS.
Import JS.

(* ------------------------------------------------------------------ *)
(** ** The upstream API ([googleapis], [youtube_v3]) *)

Module Youtube.

Record ResourceId := {
  rid_channelId : option string;
  rid_videoId : option string }.

Record SearchResult := { sr_id : option ResourceId }.

Record SearchListResponse := {
  sl_items : option (list SearchResult);
  sl_nextPageToken : option string }.

Record Thumbnail := { url : option string }.

Record ThumbnailDetails := {
  th_default : option Thumbnail;
  th_medium : option Thumbnail;
  th_high : option Thumbnail;
  th_standard : option Thumbnail;
  th_maxres : option Thumbnail }.

Record VideoSnippet := {
  title : option string;
  description : option string;
  publishedAt : option string;
  thumbnails : option ThumbnailDetails;
  channelTitle : option string }.

Record VideoStatistics := {
  viewCount : option string;
  likeCount : option string;
  dislikeCount : option string;
  commentCount : option string }.

(** A [videos.list] item. The resource id is taken as present: it is
    the key of every store predicate on videos, and what the store
    does with an [undefined] key is not in the source. *)
Record Video := {
  v_id : string;
  v_snippet : option VideoSnippet;
  v_statistics : option VideoStatistics }.

Record VideoListResponse := { vl_items : option (list Video) }.

(** The like count of a comment is a number upstream; the code prints
    it into a template string and parses it back, which is the identity
    on integers. *)
Record CommentSnippet := {
  textDisplay : option string;
  cs_likeCount : option Z;
  cs_publishedAt : option string }.

Record Comment := { c_snippet : option CommentSnippet }.

Record CommentThreadSnippet := { topLevelComment : option Comment }.

Record CommentThread := {
  ct_id : option string;
  ct_snippet : option CommentThreadSnippet }.

Record CommentThreadListResponse := {
  ctl_items : option (list CommentThread);
  ctl_nextPageToken : option string }.

(** The outcome of an awaited client call. *)
Inductive response (A : Type) : Type :=
| Ok (data : A)
| Failed.
Arguments Failed {A}.

(** The four requests the pipeline sends, with the parameters that
    vary; the constant ones ([part], [type], [order], [maxResults]) are
    fixed by the call site. *)
Inductive Request : Type :=
| SearchChannel (q : string)
| SearchVideos (channelId : string) (pageToken : option string)
| VideosList (ids : list string)
| CommentThreadsList (videoId : string) (pageToken : option string).

(** A fixed upstream: every request is answered by a function of the
    request alone. *)
Record Api := {
  search_channel : string -> response SearchListResponse;
  search_videos : string -> option string -> response SearchListResponse;
  videos_list : list string -> response VideoListResponse;
  commentThreads_list :
    string -> option string -> response CommentThreadListResponse }.

End Youtube.
Import Youtube.

(* ------------------------------------------------------------------ *)
(** ** The store ([@/server/db/schema], through drizzle) *)

Module Db.

(** Modelled from the spec: the schema module [@/server/db/schema] is
    not among the sources. A primary key is generated by the store on
    insert; the code only passes keys around and compares them. *)
Definition RowId := nat.

(** Modelled from the spec: a channel row carries the fields of the
    data model of the specification, which are the fields the code
    reads and writes. *)
Record ChannelRow := {
  ch_id : RowId;
  ch_name : string;
  ch_channelId : option string;
  ch_userId : string;
  ch_createdAt : Date;
  ch_updatedAt : Date }.

(** Modelled from the spec: a video row, likewise. *)
Record VideoRow := {
  vr_id : RowId;
  vr_videoId : string;
  vr_title : option string;
  vr_description : option string;
  vr_publishedAt : Date;
  vr_thumbnailUrl : option string;
  vr_channelId : string;
  vr_channelTitle : option string;
  vr_userId : string;
  vr_viewCount : number;
  vr_likeCount : number;
  vr_dislikeCount : number;
  vr_commentCount : number;
  vr_createdAt : Date;
  vr_updatedAt : Date }.

(** Modelled from the spec: a comment row, likewise; [cr_videoId] is
    the key of the video row it belongs to. *)
Record CommentRow := {
  cr_id : RowId;
  cr_videoId : RowId;
  cr_userId : string;
  cr_commentText : option string;
  cr_likeCount : number;
  cr_dislikeCount : number;
  cr_publishedAt : Date }.

Record Store := {
  channels : list ChannelRow;
  videos : list VideoRow;
  comments : list CommentRow;
  next_id : RowId }.

Definition empty : Store :=
  {| channels := []; videos := []; comments := []; next_id := 0 |}.

(** What the code passes to [.values(...)]. *)
Record NewVideo := {
  nv_videoId : string;
  nv_title : option string;
  nv_description : option string;
  nv_publishedAt : Date;
  nv_thumbnailUrl : option string;
  nv_channelId : string;
  nv_channelTitle : option string;
  nv_userId : string;
  nv_viewCount : number;
  nv_likeCount : number;
  nv_dislikeCount : number;
  nv_commentCount : number }.

Record NewComment := {
  nc_videoId : RowId;
  nc_userId : string;
  nc_commentText : option string;
  nc_likeCount : number;
  nc_dislikeCount : number;
  nc_publishedAt : Date }.

(** What [updateVideoStatistics] passes to [.set(...)]. *)
Record StatsUpdate := {
  su_viewCount : number;
  su_likeCount : number;
  su_dislikeCount : number;
  su_commentCount : number;
  su_updatedAt : Date }.

(** [where(eq(YouTubeChannels.userId, userId))] *)
Definition channel_of_user (userId : string) (c : ChannelRow) : bool :=
  ch_userId c =? userId.

(** [where(and(eq(YouTubeChannels.id, id), eq(YouTubeChannels.userId, userId)))] *)
Definition channel_is (id : RowId) (userId : string) (c : ChannelRow) : bool :=
  (ch_id c =? id)%nat && (ch_userId c =? userId).

(** [where(eq(Videos.userId, userId))] *)
Definition video_of_user (userId : string) (v : VideoRow) : bool :=
  vr_userId v =? userId.

(** [where(and(eq(Videos.videoId, videoId), eq(Videos.userId, userId)))] *)
Definition video_is (videoId userId : string) (v : VideoRow) : bool :=
  (vr_videoId v =? videoId) && (vr_userId v =? userId).

(** [where(eq(Videos.videoId, videoId))] *)
Definition video_has_id (videoId : string) (v : VideoRow) : bool :=
  vr_videoId v =? videoId.

Definition set_channelId (channelId : string) (updatedAt : Date)
    (c : ChannelRow) : ChannelRow :=
  {| ch_id := ch_id c;
     ch_name := ch_name c;
     ch_channelId := Some channelId;
     ch_userId := ch_userId c;
     ch_createdAt := ch_createdAt c;
     ch_updatedAt := updatedAt |}.

Definition set_stats (u : StatsUpdate) (v : VideoRow) : VideoRow :=
  {| vr_id := vr_id v;
     vr_videoId := vr_videoId v;
     vr_title := vr_title v;
     vr_description := vr_description v;
     vr_publishedAt := vr_publishedAt v;
     vr_thumbnailUrl := vr_thumbnailUrl v;
     vr_channelId := vr_channelId v;
     vr_channelTitle := vr_channelTitle v;
     vr_userId := vr_userId v;
     vr_viewCount := su_viewCount u;
     vr_likeCount := su_likeCount u;
     vr_dislikeCount := su_dislikeCount u;
     vr_commentCount := su_commentCount u;
     vr_createdAt := vr_createdAt v;
     vr_updatedAt := su_updatedAt u |}.

(** [update(T).set(f).where(p)]: every row that satisfies [p]. *)
Definition update_where {R : Type} (p : R -> bool) (f : R -> R)
    (rows : list R) : list R :=
  map (fun r => if p r then f r else r) rows.

(** [delete(T).where(p)]. *)
Definition delete_where {R : Type} (p : R -> bool) (rows : list R) : list R :=
  filter (fun r => negb (p r)) rows.

Definition with_channels (cs : list ChannelRow) (st : Store) : Store :=
  {| channels := cs; videos := videos st; comments := comments st;
     next_id := next_id st |}.

Definition with_videos (vs : list VideoRow) (st : Store) : Store :=
  {| channels := channels st; videos := vs; comments := comments st;
     next_id := next_id st |}.

(** Modelled from the spec: rows as the store completes them on
    insert, with a generated id and, for channels and videos, the two
    time stamps set to the time of the insert. *)
Definition new_channel_row (id : RowId) (t : nat) (name userId : string)
    : ChannelRow :=
  {| ch_id := id; ch_name := name; ch_channelId := None;
     ch_userId := userId; ch_createdAt := DateAt t; ch_updatedAt := DateAt t |}.

Definition new_video_row (id : RowId) (t : nat) (n : NewVideo) : VideoRow :=
  {| vr_id := id;
     vr_videoId := nv_videoId n;
     vr_title := nv_title n;
     vr_description := nv_description n;
     vr_publishedAt := nv_publishedAt n;
     vr_thumbnailUrl := nv_thumbnailUrl n;
     vr_channelId := nv_channelId n;
     vr_channelTitle := nv_channelTitle n;
     vr_userId := nv_userId n;
     vr_viewCount := nv_viewCount n;
     vr_likeCount := nv_likeCount n;
     vr_dislikeCount := nv_dislikeCount n;
     vr_commentCount := nv_commentCount n;
     vr_createdAt := DateAt t;
     vr_updatedAt := DateAt t |}.

Definition new_comment_row (id : RowId) (n : NewComment) : CommentRow :=
  {| cr_id := id;
     cr_videoId := nc_videoId n;
     cr_userId := nc_userId n;
     cr_commentText := nc_commentText n;
     cr_likeCount := nc_likeCount n;
     cr_dislikeCount := nc_dislikeCount n;
     cr_publishedAt := nc_publishedAt n |}.

End Db.
Import Db.

(* ------------------------------------------------------------------ *)
(** ** The monad of server actions *)

Module Action.

(** The world an action runs in: the store, the clock read by
    [new Date()], and the upstream requests sent so far, oldest
    first. *)
Record World := {
  store : Store;
  now : nat;
  requests : list Request }.

Inductive outcome (A : Type) : Type :=
| Returned (a : A)
| Threw (e : exn)
| OutOfFuel.
Arguments Threw {A} e.
Arguments OutOfFuel {A}.

Definition M (A : Type) : Type := World -> outcome A * World.

Definition ret {A : Type} (a : A) : M A := fun w => (Returned a, w).

Definition bind {A B : Type} (m : M A) (k : A -> M B) : M B :=
  fun w =>
    match m w with
    | (Returned a, w') => k a w'
    | (Threw e, w') => (Threw e, w')
    | (OutOfFuel, w') => (OutOfFuel, w')
    end.

Definition throw {A : Type} (e : exn) : M A := fun w => (Threw e, w).

(** A pure expression that may throw. *)
Definition eval {A : Type} (c : completion A) : M A :=
  match c with
  | Normal a => ret a
  | Abrupt e => throw e
  end.

Definition with_store (st : Store) (w : World) : World :=
  {| store := st; now := now w; requests := requests w |}.

Definition sent (rs : list Request) (w : World) : World :=
  {| store := store w; now := now w; requests := requests w ++ rs |}.

(** Awaiting one of the fetch helpers: they never throw; they return
    their value together with the requests they sent, or nothing when
    the loop budget is spent. *)
Definition await {A : Type} (r : option (A * list Request)) : M A :=
  fun w =>
    match r with
    | Some (a, rs) => (Returned a, sent rs w)
    | None => (OutOfFuel, w)
    end.

(** [new Date()]. *)
Definition newDate : M Date :=
  fun w =>
    (Returned (DateAt (now w)),
     {| store := store w; now := S (now w); requests := requests w |}).

(** A store read. *)
Definition query {A : Type} (q : Store -> A) : M A :=
  fun w => (Returned (q (store w)), w).

(** A store write. *)
Definition exec (f : Store -> Store) : M unit :=
  fun w => (Returned tt, with_store (f (store w)) w).

(** [db.insert(T).values(v).returning()], first row. *)
Definition inserting {R : Type} (ins : nat -> Store -> R * Store) : M R :=
  fun w =>
    let (row, st) := ins (now w) (store w) in
    (Returned row, with_store st w).

End Action.
Import Action.

Declare Scope action_scope.
Delimit Scope action_scope with action.
Notation "x <- m ;; k" := (bind m (fun x => k))
  (at level 61, m at next level, right associativity) : action_scope.
Notation "m ;;; k" := (bind m (fun _ => k))
  (at level 61, right associativity) : action_scope.
Local Open Scope action_scope.

(* ------------------------------------------------------------------ *)
(** ** Store operations of the pipeline *)

Definition select_channels (userId : string) (st : Store) : list ChannelRow :=
  filter (channel_of_user userId) (channels st).

Definition update_channel (id : RowId) (userId channelId : string)
    (updatedAt : Date) (st : Store) : Store :=
  with_channels
    (update_where (channel_is id userId) (set_channelId channelId updatedAt)
       (channels st)) st.

(** [select().from(Videos).where(...).limit(1)] *)
Definition select_video (videoId userId : string) (st : Store) : list VideoRow :=
  firstn 1 (filter (video_is videoId userId) (videos st)).

Definition select_videos (userId : string) (st : Store) : list VideoRow :=
  filter (video_of_user userId) (videos st).

Definition insert_video (n : NewVideo) (t : nat) (st : Store) : VideoRow * Store :=
  let row := new_video_row (next_id st) t n in
  (row,
   {| channels := channels st; videos := videos st ++ [row];
      comments := comments st; next_id := S (next_id st) |}).

Definition insert_comment (n : NewComment) (t : nat) (st : Store)
    : CommentRow * Store :=
  let row := new_comment_row (next_id st) n in
  (row,
   {| channels := channels st; videos := videos st;
      comments := comments st ++ [row]; next_id := S (next_id st) |}).

Definition insert_channel (name userId : string) (t : nat) (st : Store)
    : ChannelRow * Store :=
  let row := new_channel_row (next_id st) t name userId in
  (row,
   {| channels := channels st ++ [row]; videos := videos st;
      comments := comments st; next_id := S (next_id st) |}).

(** [update(Videos).set(u).where(eq(Videos.videoId, videoId))] *)
Definition update_video_stats (videoId : string) (u : StatsUpdate)
    (st : Store) : Store :=
  with_videos (update_where (video_has_id videoId) (set_stats u) (videos st)) st.

Definition delete_channel (id : RowId) (userId : string) (st : Store) : Store :=
  with_channels (delete_where (channel_is id userId) (channels st)) st.

(* ------------------------------------------------------------------ *)
(** ** [youtube-actions.ts] *)

Record YouTubeVideo := {
  yv_videoId : string;
  yv_snippet : option VideoSnippet;
  yv_statistics : option VideoStatistics }.

Record YouTubeComment := {
  yc_id : option string;
  yc_snippet : option CommentSnippet }.

(** [thumbnails.maxres], ... are objects when present, hence truthy. *)
Definition getBestThumbnail (thumbnails : ThumbnailDetails)
    : completion (option string) :=
  match th_maxres thumbnails with
  | Some t => Normal (url t)
  | None =>
  match th_standard thumbnails with
  | Some t => Normal (url t)
  | None =>
  match th_high thumbnails with
  | Some t => Normal (url t)
  | None =>
  match th_medium thumbnails with
  | Some t => Normal (url t)
  | None =>
  match th_default thumbnails with
  | Some t => Normal (url t)
  | None => Abrupt (TypeError "thumbnails.default is undefined")
  end end end end end.

(** [data.items?.map((item) => item.id?.videoId).filter(Boolean) || []] *)
Definition search_video_ids (data : SearchListResponse) : list string :=
  match sl_items data with
  | Some items =>
      flat_map
        (fun item =>
           match sr_id item with
           | Some rid =>
               match rid_videoId rid with
               | Some v => if v =? "" then [] else [v]
               | None => []
               end
           | None => []
           end)
        items
  | None => []
  end.

(** [item.snippet!.topLevelComment!.snippet!] inside [map]: the two
    property reads throw on [undefined]; the last assertion reads
    nothing. *)
Definition comment_of_thread (item : CommentThread) : completion YouTubeComment :=
  match ct_snippet item with
  | None => Abrupt (TypeError "item.snippet is undefined")
  | Some s =>
      match topLevelComment s with
      | None => Abrupt (TypeError "topLevelComment is undefined")
      | Some c => Normal {| yc_id := ct_id item; yc_snippet := c_snippet c |}
      end
  end.

Fixpoint map_completion {A B : Type} (f : A -> completion B) (l : list A)
    : completion (list B) :=
  match l with
  | [] => Normal []
  | a :: r =>
      match f a with
      | Abrupt e => Abrupt e
      | Normal b =>
          match map_completion f r with
          | Abrupt e => Abrupt e
          | Normal bs => Normal (b :: bs)
          end
      end
  end.

(** [data.items?.map(...) || []] of [fetchVideoComments]. *)
Definition thread_comments (data : CommentThreadListResponse)
    : completion (list YouTubeComment) :=
  match ctl_items data with
  | Some items => map_completion comment_of_thread items
  | None => Normal []
  end.

Section Fetchers.

Variable api : Api.

(** [getChannelId]: one search; the channel id of the first hit, or
    [null], also when the call fails. *)
Definition getChannelId (channelName : string) : option string * list Request :=
  (match search_channel api channelName with
   | Ok data =>
       or_null
         match sl_items data with
         | Some (item :: _) =>
             match sr_id item with
             | Some rid => rid_channelId rid
             | None => None
             end
         | _ => None
         end
   | Failed => None
   end,
   [SearchChannel channelName]).

(** The [do ... while (nextPageToken)] loop of
    [fetchAllVideosForChannel]; [fuel] bounds the number of
    iterations. The value is the list returned and the requests sent. *)
Fixpoint fetchAllVideosLoop (fuel : nat) (channelId : string)
    (allVideoIds : list string) (nextPageToken : option string)
    : option (list string * list Request) :=
  match fuel with
  | O => None
  | S fuel' =>
      let req := SearchVideos channelId nextPageToken in
      match search_videos api channelId nextPageToken with
      | Failed => Some (allVideoIds, [req])
      | Ok data =>
          let allVideoIds' := allVideoIds ++ search_video_ids data in
          let nextPageToken' := sl_nextPageToken data in
          if truthy nextPageToken' then
            match fetchAllVideosLoop fuel' channelId allVideoIds' nextPageToken' with
            | Some (r, reqs) => Some (r, req :: reqs)
            | None => None
            end
          else Some (allVideoIds', [req])
      end
  end.

Definition fetchAllVideosForChannel (fuel : nat) (channelId : string)
    : option (list string * list Request) :=
  fetchAllVideosLoop fuel channelId [] None.

(** [fetchVideoDetails]: one batched call. *)
Definition fetchVideoDetails (videoIds : list string)
    : list YouTubeVideo * list Request :=
  (match videos_list api videoIds with
   | Ok data =>
       match vl_items data with
       | Some items =>
           map (fun item =>
                  {| yv_videoId := v_id item;
                     yv_snippet := v_snippet item;
                     yv_statistics := v_statistics item |})
               items
       | None => []
       end
   | Failed => []
   end,
   [VideosList videoIds]).

(** The loop of [fetchVideoComments]. An exception inside [try], a
    failed call or a thread without its snippet, leaves the loop with
    what was accumulated before this page. *)
Fixpoint fetchVideoCommentsLoop (fuel : nat) (videoId : string)
    (allComments : list YouTubeComment) (nextPageToken : option string)
    : option (list YouTubeComment * list Request) :=
  match fuel with
  | O => None
  | S fuel' =>
      let req := CommentThreadsList videoId nextPageToken in
      match commentThreads_list api videoId nextPageToken with
      | Failed => Some (allComments, [req])
      | Ok data =>
          match thread_comments data with
          | Abrupt _ => Some (allComments, [req])
          | Normal comments =>
              let allComments' := allComments ++ comments in
              if (100 <=? length allComments')%nat then
                Some (firstn 100 allComments', [req])
              else
                let nextPageToken' := ctl_nextPageToken data in
                if truthy nextPageToken' then
                  match fetchVideoCommentsLoop fuel' videoId allComments'
                          nextPageToken' with
                  | Some (r, reqs) => Some (r, req :: reqs)
                  | None => None
                  end
                else Some (allComments', [req])
          end
      end
  end.

Definition fetchVideoComments (fuel : nat) (videoId : string)
    : option (list YouTubeComment * list Request) :=
  fetchVideoCommentsLoop fuel videoId [] None.

(** [parseInt(x || "0", 10)] *)
Definition counter (x : option string) : number :=
  parseInt (or_default x "0").

(** The object literal [newVideo] of [scrapeVideos], evaluated in
    source order: the snippet is read first, then the thumbnails, then
    the statistics. *)
Definition newVideoOf (video : YouTubeVideo) (channelId userId : string)
    : completion NewVideo :=
  match yv_snippet video with
  | None => Abrupt (TypeError "video.snippet is undefined")
  | Some sn =>
  match thumbnails sn with
  | None => Abrupt (TypeError "thumbnails is undefined")
  | Some th =>
  match getBestThumbnail th with
  | Abrupt e => Abrupt e
  | Normal thumbnailUrl =>
  match yv_statistics video with
  | None => Abrupt (TypeError "video.statistics is undefined")
  | Some st =>
      Normal
        {| nv_videoId := yv_videoId video;
           nv_title := title sn;
           nv_description := description sn;
           nv_publishedAt := DateOf (publishedAt sn);
           nv_thumbnailUrl := thumbnailUrl;
           nv_channelId := channelId;
           nv_channelTitle := channelTitle sn;
           nv_userId := userId;
           nv_viewCount := counter (viewCount st);
           nv_likeCount := counter (likeCount st);
           nv_dislikeCount := counter (dislikeCount st);
           nv_commentCount := counter (commentCount st) |}
  end end end end.

(** The object literal [newComment]. *)
Definition newCommentOf (comment : YouTubeComment) (videoId : RowId)
    (userId : string) : completion NewComment :=
  match yc_snippet comment with
  | None => Abrupt (TypeError "comment.snippet is undefined")
  | Some sn =>
      Normal
        {| nc_videoId := videoId;
           nc_userId := userId;
           nc_commentText := textDisplay sn;
           nc_likeCount :=
             match cs_likeCount sn with
             | Some n => if (n =? 0)%Z then Num 0 else Num n
             | None => Num 0
             end;
           nc_dislikeCount := Num 0;
           nc_publishedAt := DateOf (cs_publishedAt sn) |}
  end.

(** [for (const comment of comments) { ... }] *)
Fixpoint insertComments (videoId : RowId) (userId : string)
    (comments : list YouTubeComment) (newComments : list CommentRow)
    : M (list CommentRow) :=
  match comments with
  | [] => ret newComments
  | comment :: rest =>
      newComment <- eval (newCommentOf comment videoId userId) ;;
      insertedComment <- inserting (insert_comment newComment) ;;
      insertComments videoId userId rest (newComments ++ [insertedComment])
  end.

(** [for (const video of videoDetails) { ... }]; [newVideos] and
    [newComments] are the two arrays the loop pushes to. *)
Fixpoint processVideos (fuel : nat) (userId channelId : string)
    (videoDetails : list YouTubeVideo)
    (newVideos : list VideoRow) (newComments : list CommentRow)
    : M (list VideoRow * list CommentRow) :=
  match videoDetails with
  | [] => ret (newVideos, newComments)
  | video :: rest =>
      existingVideo <- query (select_video (yv_videoId video) userId) ;;
      r <-
        match existingVideo with
        | [] =>
            newVideo <- eval (newVideoOf video channelId userId) ;;
            insertedVideo <- inserting (insert_video newVideo) ;;
            ret (vr_id insertedVideo, newVideos ++ [insertedVideo])
        | existing :: _ => ret (vr_id existing, newVideos)
        end ;;
      comments <- await (fetchVideoComments fuel (yv_videoId video)) ;;
      newComments' <- insertComments (fst r) userId comments newComments ;;
      processVideos fuel userId channelId rest (snd r) newComments'
  end.

(** The part of the channel loop after the identifier is known. *)
Definition processChannel (fuel : nat) (userId channelId : string)
    (acc : list VideoRow * list CommentRow)
    : M (list VideoRow * list CommentRow) :=
  videoIds <- await (fetchAllVideosForChannel fuel channelId) ;;
  videoDetails <- await (Some (fetchVideoDetails videoIds)) ;;
  processVideos fuel userId channelId videoDetails (fst acc) (snd acc).

(** [for (const channel of channels) { ... }] over the rows read
    before the loop; [or_null (ch_channelId channel)] is the stored
    identifier when [!channel.channelId] is false. *)
Fixpoint processChannels (fuel : nat) (userId : string)
    (channels : list ChannelRow) (acc : list VideoRow * list CommentRow)
    : M (list VideoRow * list CommentRow) :=
  match channels with
  | [] => ret acc
  | channel :: rest =>
      match or_null (ch_channelId channel) with
      | Some channelId =>
          acc' <- processChannel fuel userId channelId acc ;;
          processChannels fuel userId rest acc'
      | None =>
          channelId <- await (Some (getChannelId (ch_name channel))) ;;
          match channelId with
          | None => processChannels fuel userId rest acc
          | Some channelId =>
              updatedAt <- newDate ;;
              exec (update_channel (ch_id channel) userId channelId updatedAt) ;;;
              acc' <- processChannel fuel userId channelId acc ;;
              processChannels fuel userId rest acc'
          end
      end
  end.

(** [scrapeVideos]; [session] is what [auth()] resolves [userId] to. *)
Definition scrapeVideos (fuel : nat) (session : option string)
    : M (list VideoRow) :=
  match session with
  | Some userId =>
      if userId =? "" then throw (Error "User not authenticated")
      else
        channels <- query (select_channels userId) ;;
        if (length channels =? 0)%nat then
          throw (Error "No channels found for the user")
        else
          r <- processChannels fuel userId channels ([], []) ;;
          ret (fst r)
  | None => throw (Error "User not authenticated")
  end.

(** The [.set({...})] argument of [updateVideoStatistics]: the
    statistics are read before the clock. *)
Definition statsUpdateOf (updatedVideo : YouTubeVideo) : M StatsUpdate :=
  match yv_statistics updatedVideo with
  | None => throw (TypeError "updatedVideo.statistics is undefined")
  | Some st =>
      updatedAt <- newDate ;;
      ret {| su_viewCount := counter (viewCount st);
             su_likeCount := counter (likeCount st);
             su_dislikeCount := counter (dislikeCount st);
             su_commentCount := counter (commentCount st);
             su_updatedAt := updatedAt |}
  end.

(** [for (const video of videos) { ... }] of [updateVideoStatistics]. *)
Fixpoint refreshVideos (videos : list VideoRow) : M unit :=
  match videos with
  | [] => ret tt
  | video :: rest =>
      details <- await (Some (fetchVideoDetails [vr_videoId video])) ;;
      match details with
      | updatedVideo :: _ =>
          u <- statsUpdateOf updatedVideo ;;
          exec (update_video_stats (vr_videoId video) u)
      | [] => ret tt
      end ;;;
      refreshVideos rest
  end.

Definition updateVideoStatistics (session : option string) : M unit :=
  match session with
  | Some userId =>
      if userId =? "" then throw (Error "User not authenticated")
      else
        videos <- query (select_videos userId) ;;
        refreshVideos videos
  | None => throw (Error "User not authenticated")
  end.

End Fetchers.

(* ------------------------------------------------------------------ *)
(** ** [mutations.ts] and [queries.ts] *)

Definition authenticated {A : Type} (session : option string)
    (k : string -> M A) : M A :=
  match session with
  | Some userId =>
      if userId =? "" then throw (Error "User not authenticated") else k userId
  | None => throw (Error "User not authenticated")
  end.

Definition addChannelForUser (session : option string) (name : string)
    : M ChannelRow :=
  authenticated session (fun userId => inserting (insert_channel name userId)).

Definition removeChannelForUser (session : option string) (id : RowId) : M unit :=
  authenticated session (fun userId => exec (delete_channel id userId)).

Definition getVideosForUser (session : option string) : M (list VideoRow) :=
  authenticated session (fun userId => query (select_videos userId)).

Definition getChannelsForUser (session : option string) : M (list ChannelRow) :=
  authenticated session (fun userId => query (select_channels userId)).

Unset Implicit Arguments.

(* ------------------------------------------------------------------ *)
(** ** Vocabulary of the properties *)

(** *** Thumbnails *)

(** The variants of a thumbnail set in the priority order of the
    specification: maxres, standard, high, medium, default. *)
Definition by_priority (t : ThumbnailDetails) : list (option Thumbnail) :=
  [th_maxres t; th_standard t; th_high t; th_medium t; th_default t].

(** The first variant of a list that is present. *)
Fixpoint first_present (l : list (option Thumbnail)) : option Thumbnail :=
  match l with
  | [] => None
  | Some t :: _ => Some t
  | None :: r => first_present r
  end.

(** *** Pages *)

(** [video_pages api channelId tok pages tok']: asked for the videos of
    [channelId] from page token [tok] on, the upstream answers the pages
    [pages], each recorded with the token it was requested with and the
    identifiers it holds, every one of them carrying a continuation
    token, a non-empty string, the last of which is [tok']. *)
Inductive video_pages (api : Api) (channelId : string)
    : option string -> list (option string * list string) -> option string -> Prop :=
| vp_done : forall tok, video_pages api channelId tok [] tok
| vp_next : forall tok data t rest tok',
    search_videos api channelId tok = Ok data ->
    sl_nextPageToken data = Some t ->
    t <> "" ->
    video_pages api channelId (Some t) rest tok' ->
    video_pages api channelId tok ((tok, search_video_ids data) :: rest) tok'.

(** The same for the comment threads of a video. *)
Inductive comment_pages (api : Api) (videoId : string)
    : option string -> list (option string * list YouTubeComment)
      -> option string -> Prop :=
| cp_done : forall tok, comment_pages api videoId tok [] tok
| cp_next : forall tok data cs t rest tok',
    commentThreads_list api videoId tok = Ok data ->
    thread_comments data = Normal cs ->
    ctl_nextPageToken data = Some t ->
    t <> "" ->
    comment_pages api videoId (Some t) rest tok' ->
    comment_pages api videoId tok ((tok, cs) :: rest) tok'.

(** What a sequence of pages holds, and the requests that fetch it. *)
Definition page_items {A : Type} (pages : list (option string * list A)) : list A :=
  flat_map snd pages.

Definition page_requests {A : Type} (req : option string -> Request)
    (pages : list (option string * list A)) : list Request :=
  map (fun p => req (fst p)) pages.

(** *** Detail records *)

(** The two bounds that the specification states for the records
    returned for [videoIds]. *)
Definition details_within (videoIds : list string) (out : list YouTubeVideo) : Prop :=
  length out <= length videoIds /\
  forall v, In v out -> In (yv_videoId v) videoIds.

(** The upstream contract under which they hold: a successful answer
    holds at most one resource per identifier, and only resources that
    were asked for. *)
Definition answers_requested (api : Api) (videoIds : list string) : Prop :=
  forall data items,
    videos_list api videoIds = Ok data ->
    vl_items data = Some items ->
    NoDup (map v_id items) /\ incl (map v_id items) videoIds.

(** *** Refreshed rows *)

(** How one row may differ after a refresh of the rows [vs]: not at
    all, or in the four counters and [updatedAt], and then only if it
    carries the upstream identifier of one of [vs] for which the
    upstream returned a record. *)
Definition refreshed_by (api : Api) (vs : list VideoRow) (r r' : VideoRow) : Prop :=
  r' = r \/
  exists u v,
    r' = set_stats u r /\ In v vs /\ vr_videoId r = vr_videoId v /\
    fst (fetchVideoDetails api [vr_videoId v]) <> [].

(** *** Ingestion runs *)

(** The queries of the channel searches among the requests [rs]. *)
Definition search_queries (rs : list Request) : list string :=
  flat_map (fun r => match r with SearchChannel q => [q] | _ => [] end) rs.

(** No name is searched for twice. *)
Definition once_per_name (rs : list Request) : Prop := NoDup (search_queries rs).

(** [!channel.channelId] *)
Definition unresolved (c : ChannelRow) : bool := negb (truthy (ch_channelId c)).

(** No channel row holds the empty string as its identifier: rows are
    created without identifier and the pipeline stores only what
    [getChannelId] returns. *)
Definition identifiers_nonempty (st : Store) : Prop :=
  forall c, In c (channels st) -> ch_channelId c <> Some "".

(** The identifier a run works with for the channel row [c]: the stored
    one, or else the one the search returns. *)
Definition resolved (api : Api) (c : ChannelRow) : option string :=
  match or_null (ch_channelId c) with
  | Some channelId => Some channelId
  | None => fst (getChannelId api (ch_name c))
  end.

(** The detail records of the videos listed for a channel. *)
Definition listed (api : Api) (fuel : nat) (channelId : string) : list YouTubeVideo :=
  match fetchAllVideosForChannel api fuel channelId with
  | Some (videoIds, _) => fst (fetchVideoDetails api videoIds)
  | None => []
  end.

(** The videos a run lists, channel by channel. *)
Definition listed_videos (api : Api) (fuel : nat) (chs : list ChannelRow)
    : list YouTubeVideo :=
  flat_map (fun c => match resolved api c with
                     | Some channelId => listed api fuel channelId
                     | None => []
                     end) chs.

(** A comment row without its generated key. *)
Definition values_of (row : CommentRow) : NewComment :=
  {| nc_videoId := cr_videoId row;
     nc_userId := cr_userId row;
     nc_commentText := cr_commentText row;
     nc_likeCount := cr_likeCount row;
     nc_dislikeCount := cr_dislikeCount row;
     nc_publishedAt := cr_publishedAt row |}.

Definition comment_value (videoId : RowId) (userId : string)
    (c : YouTubeComment) : list NewComment :=
  match newCommentOf c videoId userId with
  | Normal n => [n]
  | Abrupt _ => []
  end.

(** The full set of comment rows of a listed video: one per comment
    that [fetchVideoComments] returns for it, under the first row that
    the table [V] holds for the video and the user. *)
Definition comment_values (api : Api) (fuel : nat) (userId : string)
    (V : list VideoRow) (video : YouTubeVideo) : list NewComment :=
  match filter (video_is (yv_videoId video) userId) V,
        fetchVideoComments api fuel (yv_videoId video) with
  | row :: _, Some (cs, _) => flat_map (comment_value (vr_id row) userId) cs
  | _, _ => []
  end.

(** The table [V] holds a row for the video and the user. *)
Definition stored (V : list VideoRow) (userId : string) (video : YouTubeVideo) : Prop :=
  filter (video_is (yv_videoId video) userId) V <> [].

(** The comments of a video can be fetched within the budget and
    inserted. *)
Definition comments_ready (api : Api) (fuel : nat) (video : YouTubeVideo) : Prop :=
  exists cs rs,
    fetchVideoComments api fuel (yv_videoId video) = Some (cs, rs) /\
    Forall (fun c => yc_snippet c <> None) cs.

(** The videos of a channel can be listed within the budget, and the
    comments of each are ready. *)
Definition channel_ready (api : Api) (fuel : nat) (channelId : string) : Prop :=
  (exists videoIds rs,
      fetchAllVideosForChannel api fuel channelId = Some (videoIds, rs)) /\
  Forall (comments_ready api fuel) (listed api fuel channelId).

(** How a channel row may differ after the channel loop over [chs]:
    key, owner and name stay; the identifier stays, or is the search
    result for a row of [chs] with the same key that had none. *)
Definition resolved_by (api : Api) (chs : list ChannelRow) (r r' : ChannelRow) : Prop :=
  ch_id r' = ch_id r /\ ch_userId r' = ch_userId r /\ ch_name r' = ch_name r /\
  (ch_channelId r' = ch_channelId r \/
   exists c,
     In c chs /\ ch_id c = ch_id r /\ unresolved c = true /\
     ch_channelId r' = fst (getChannelId api (ch_name c)) /\
     truthy (ch_channelId r') = true).


Definition steady (w w' : World) : Prop :=
  channels (store w') = channels (store w) /\
  videos (store w') = videos (store w).

(** [l1] is an initial segment of [l2]. *)
Definition prefix {A : Type} (l1 l2 : list A) : Prop := exists l3, l2 = l1 ++ l3.

(** A relation between the world before and after that every step of
    an action respects is respected by the action, whatever its
    outcome. *)
Definition respects {A : Type} (R : World -> World -> Prop) (m : M A) : Prop :=
  forall w out w', m w = (out, w') -> R w w'.

(** An action sends no channel search. *)
Definition quiet (w w' : World) : Prop :=
  exists rs, requests w' = requests w ++ rs /\ search_queries rs = [].

(* ------------------------------------------------------------------ *)
(** ** Test doubles and sample data *)

Module Sample.

Definition thumb (u : string) : Thumbnail := {| url := Some u |}.

Definition only_default : ThumbnailDetails :=
  {| th_default := Some (thumb "d.jpg"); th_medium := None; th_high := None;
     th_standard := None; th_maxres := None |}.

Definition medium_and_default : ThumbnailDetails :=
  {| th_default := Some (thumb "d.jpg"); th_medium := Some (thumb "m.jpg");
     th_high := None; th_standard := None; th_maxres := None |}.

Definition all_five : ThumbnailDetails :=
  {| th_default := Some (thumb "d.jpg"); th_medium := Some (thumb "m.jpg");
     th_high := Some (thumb "h.jpg"); th_standard := Some (thumb "s.jpg");
     th_maxres := Some (thumb "x.jpg") |}.

Definition snippet (t : string) : VideoSnippet :=
  {| title := Some t; description := Some "about"; 
     publishedAt := Some "2024-01-01T00:00:00Z";
     thumbnails := Some medium_and_default; channelTitle := Some "Acme" |}.

Definition stats (views : string) : VideoStatistics :=
  {| viewCount := Some views; likeCount := Some "7"; dislikeCount := None;
     commentCount := Some "3" |}.

Definition video (id : string) : Video :=
  {| v_id := id; v_snippet := Some (snippet id);
     v_statistics := Some (stats "10") |}.

Definition thread (text : string) : CommentThread :=
  {| ct_id := Some text;
     ct_snippet :=
       Some {| topLevelComment :=
                 Some {| c_snippet :=
                           Some {| textDisplay := Some text;
                                   cs_likeCount := Some 2%Z;
                                   cs_publishedAt := Some "2024-01-02" |} |} |} |}.

(** The comment that [fetchVideoComments] makes of [thread text]. *)
Definition comment (text : string) : YouTubeComment :=
  {| yc_id := Some text;
     yc_snippet := Some {| textDisplay := Some text;
                           cs_likeCount := Some 2%Z;
                           cs_publishedAt := Some "2024-01-02" |} |}.

Definition hit (videoId : string) : SearchResult :=
  {| sr_id := Some {| rid_channelId := None; rid_videoId := Some videoId |} |}.

Definition channel_hit (channelId : string) : SearchResult :=
  {| sr_id := Some {| rid_channelId := Some channelId; rid_videoId := None |} |}.

(** An upstream on which every call fails. *)
Definition down : Api :=
  {| search_channel := fun _ => Failed;
     search_videos := fun _ _ => Failed;
     videos_list := fun _ => Failed;
     commentThreads_list := fun _ _ => Failed |}.

(** A catalog with one channel: "Acme" resolves to "UCX1", whose
    videos come in two pages, ["v1"; "v2"] and then ["v3"]; channel
    "UCX2" fails on its second page. Details are answered for exactly
    the identifiers asked. Video "v1" has three comments on two pages,
    "v2" one page of 150, "v3" one page and then a failure. *)
Definition catalog : Api :=
  {| search_channel := fun q =>
       if q =? "Acme" then
         Ok {| sl_items := Some [channel_hit "UCX1"]; sl_nextPageToken := None |}
       else Ok {| sl_items := Some []; sl_nextPageToken := None |};
     search_videos := fun channelId tok =>
       match tok with
       | None =>
           Ok {| sl_items := Some [hit "v1"; hit "v2"];
                 sl_nextPageToken := Some "p2" |}
       | Some _ =>
           if channelId =? "UCX1" then
             Ok {| sl_items := Some [hit "v3"]; sl_nextPageToken := None |}
           else Failed
       end;
     videos_list := fun ids => Ok {| vl_items := Some (map video ids) |};
     commentThreads_list := fun videoId tok =>
       if videoId =? "v1" then
         match tok with
         | None =>
             Ok {| ctl_items := Some [thread "first"; thread "nice"];
                   ctl_nextPageToken := Some "c2" |}
         | Some _ =>
             Ok {| ctl_items := Some [thread "last"]; ctl_nextPageToken := None |}
         end
       else if videoId =? "v2" then
         Ok {| ctl_items := Some (repeat (thread "spam") 150);
               ctl_nextPageToken := Some "more" |}
       else
         match tok with
         | None =>
             Ok {| ctl_items := Some [thread "only"];
                   ctl_nextPageToken := Some "c2" |}
         | Some _ => Failed
         end |}.

(** An upstream that answers a request for one video with two others. *)
Definition chatty : Api :=
  {| search_channel := fun _ => Failed;
     search_videos := fun _ _ => Failed;
     videos_list := fun _ => Ok {| vl_items := Some [video "b"; video "c"] |};
     commentThreads_list := fun _ _ => Failed |}.

(** The same catalog, but its detail records come without the
    statistics object. *)
Definition bare : Api :=
  {| search_channel := search_channel catalog;
     search_videos := search_videos catalog;
     videos_list := fun ids =>
       Ok {| vl_items :=
               Some (map (fun id => {| v_id := id;
                                       v_snippet := Some (snippet id);
                                       v_statistics := None |}) ids) |};
     commentThreads_list := commentThreads_list catalog |}.

(** A stored video as ingested some time ago. *)
Definition video_row (id : RowId) (videoId userId : string) : VideoRow :=
  {| vr_id := id; vr_videoId := videoId; vr_title := Some videoId;
     vr_description := Some "about";
     vr_publishedAt := DateOf (Some "2024-01-01T00:00:00Z");
     vr_thumbnailUrl := Some "m.jpg"; vr_channelId := "UCX1";
     vr_channelTitle := Some "Acme"; vr_userId := userId;
     vr_viewCount := Num 1; vr_likeCount := Num 1; vr_dislikeCount := Num 1;
     vr_commentCount := Num 1;
     vr_createdAt := DateAt 0; vr_updatedAt := DateAt 0 |}.

(** Two users who both ingested the upstream video "v1". *)
Definition shared_video : Store :=
  {| channels := [];
     videos := [video_row 0 "v1" "alice"; video_row 1 "v1" "bob"];
     comments := []; next_id := 2 |}.

(** The catalog after "v1" was deleted upstream: a detail request for
    it alone is answered with no record. *)
Definition gone : Api :=
  {| search_channel := search_channel catalog;
     search_videos := search_videos catalog;
     videos_list := fun ids =>
       match ids with
       | [id] => if id =? "v1" then Ok {| vl_items := Some [] |}
                 else videos_list catalog ids
       | _ => videos_list catalog ids
       end;
     commentThreads_list := commentThreads_list catalog |}.

(** One user with the videos "v1" and "v2". *)
Definition two_videos : Store :=
  {| channels := [];
     videos := [video_row 0 "v1" "alice"; video_row 1 "v2" "alice"];
     comments := []; next_id := 2 |}.

(** What the refresh of "v1" writes at clock 5. *)
Definition refreshed : StatsUpdate :=
  {| su_viewCount := Num 10; su_likeCount := Num 7; su_dislikeCount := Num 0;
     su_commentCount := Num 3; su_updatedAt := DateAt 5 |}.

(** A user with one registered channel, its identifier unset or set. *)
Definition channel_row (id : RowId) (name : string) (channelId : option string)
    (userId : string) : ChannelRow :=
  {| ch_id := id; ch_name := name; ch_channelId := channelId;
     ch_userId := userId; ch_createdAt := DateAt 0; ch_updatedAt := DateAt 0 |}.

Definition one_channel (channelId : option string) : Store :=
  {| channels := [channel_row 0 "Acme" channelId "alice"];
     videos := []; comments := []; next_id := 1 |}.

(** Three registered channels: one never resolved, one resolved, one
    whose name the upstream does not know. *)
Definition three_channels : Store :=
  {| channels := [channel_row 0 "Acme" None "alice";
                  channel_row 1 "Beta" (Some "UCX2") "alice";
                  channel_row 2 "Nope" None "alice"];
     videos := []; comments := []; next_id := 3 |}.

(** The same channel registered twice. *)
Definition registered_twice : Store :=
  {| channels := [channel_row 0 "Acme" None "alice";
                  channel_row 1 "Acme" None "alice"];
     videos := []; comments := []; next_id := 2 |}.

Definition start (st : Store) : World :=
  {| store := st; now := 5; requests := [] |}.

End Sample.

(* ------------------------------------------------------------------ *)
(** ** Vocabulary of the further properties *)

(** The dedup key of a video row: upstream identifier and owner. *)
Definition dedup_key (r : VideoRow) : string * string :=
  (vr_videoId r, vr_userId r).

(** At most one row per dedup key. *)
Definition deduplicated (V : list VideoRow) : Prop := NoDup (map dedup_key V).

(** The four counters of a row, and the four counters that a refresh
    reads for an upstream identifier: those of the first record that
    [fetchVideoDetails] returns for it alone, if it returns one with
    its statistics. *)
Definition counters_of (r : VideoRow) : number * number * number * number :=
  (vr_viewCount r, vr_likeCount r, vr_dislikeCount r, vr_commentCount r).

Definition upstream_counters (api : Api) (videoId : string)
    : option (number * number * number * number) :=
  match fst (fetchVideoDetails api [videoId]) with
  | d :: _ =>
      match yv_statistics d with
      | Some st =>
          Some (counter (viewCount st), counter (likeCount st),
                counter (dislikeCount st), counter (commentCount st))
      | None => None
      end
  | [] => None
  end.

(** The refresh has a record for the upstream identifier. *)
Definition has_details (api : Api) (videoId : string) : bool :=
  match fst (fetchVideoDetails api [videoId]) with
  | _ :: _ => true
  | [] => false
  end.

(** A row agrees with another in everything a refresh does not write. *)
Definition same_but_stats (r r' : VideoRow) : Prop :=
  vr_id r' = vr_id r /\ vr_videoId r' = vr_videoId r /\
  vr_title r' = vr_title r /\ vr_description r' = vr_description r /\
  vr_publishedAt r' = vr_publishedAt r /\
  vr_thumbnailUrl r' = vr_thumbnailUrl r /\
  vr_channelId r' = vr_channelId r /\ vr_channelTitle r' = vr_channelTitle r /\
  vr_userId r' = vr_userId r /\ vr_createdAt r' = vr_createdAt r.



(** All keys in the store are below the next key to be generated. *)
Definition channel_keys_fresh (st : Store) : Prop :=
  Forall (fun c => ch_id c < next_id st) (channels st).

Module More.

(** Only the high-resolution variant. *)
Definition only_high : ThumbnailDetails :=
  {| th_default := None; th_medium := None;
     th_high := Some (Sample.thumb "h.jpg");
     th_standard := None; th_maxres := None |}.

(** Alice and Bob with one channel each, Alice with one video and one
    comment on it. *)
Definition two_users : Store :=
  {| channels := [Sample.channel_row 0 "Acme" None "alice";
                  Sample.channel_row 1 "Acme" (Some "UCX1") "bob"];
     videos := [Sample.video_row 2 "v1" "alice"];
     comments := [{| cr_id := 3; cr_videoId := 2; cr_userId := "alice";
                     cr_commentText := Some "first"; cr_likeCount := Num 2;
                     cr_dislikeCount := Num 0;
                     cr_publishedAt := DateOf (Some "2024-01-02") |}];
     next_id := 4 |}.

(** A user whose only channel is unknown upstream. *)
Definition unknown_channel : Store :=
  {| channels := [Sample.channel_row 0 "Nope" None "alice"];
     videos := []; comments := []; next_id := 1 |}.

(** An upstream whose video listing always has a next page. *)
Definition endless : Api :=
  {| search_channel := search_channel Sample.catalog;
     search_videos := fun _ _ =>
       Ok {| sl_items := Some [Sample.hit "v1"]; sl_nextPageToken := Some "next" |};
     videos_list := videos_list Sample.catalog;
     commentThreads_list := commentThreads_list Sample.catalog |}.

(** Alice with the videos "v1" and "v2", on the catalog without
    statistics. *)
Definition refresh_bare : World := Sample.start Sample.two_videos.

End More.


(** An action keeps the table of videos deduplicated. *)
Definition keeps_dedup (w w' : World) : Prop :=
  deduplicated (videos (store w)) -> deduplicated (videos (store w')).

(* ------------------------------------------------------------------ *)
(** ** Thumbnail selector *)

Lemma getBestThumbnail_first_present (t : ThumbnailDetails) (best : Thumbnail) :
  first_present (by_priority t) = Some best ->
  getBestThumbnail t = Normal (url best).
Proof.
  unfold by_priority, getBestThumbnail. cbn [first_present].
  destruct (th_maxres t), (th_standard t), (th_high t), (th_medium t),
    (th_default t); intros H; inversion H; reflexivity.
Qed.

(** C9. When the default variant is present, [getBestThumbnail] does not
    throw and returns the URL of the first variant present in the order
    maxres, standard, high, medium, default. In particular: with only
    medium and default it is medium's URL, with only default it is
    default's, and whenever maxres is present it is maxres's. *)
Theorem getBestThumbnail_priority (t : ThumbnailDetails) (d : Thumbnail) :
  th_default t = Some d ->
  (exists best,
      first_present (by_priority t) = Some best /\
      getBestThumbnail t = Normal (url best)) /\
  (forall m,
      th_maxres t = None -> th_standard t = None -> th_high t = None ->
      th_medium t = Some m ->
      getBestThumbnail t = Normal (url m)) /\
  (th_maxres t = None -> th_standard t = None -> th_high t = None ->
   th_medium t = None ->
   getBestThumbnail t = Normal (url d)) /\
  (forall x, th_maxres t = Some x -> getBestThumbnail t = Normal (url x)).
Proof.
  intros Hd. repeat split.
  - assert (exists best, first_present (by_priority t) = Some best) as [best Hb].
    { unfold by_priority. cbn [first_present]. rewrite Hd.
      destruct (th_maxres t), (th_standard t), (th_high t), (th_medium t);
        eexists; reflexivity. }
    exists best. split; [exact Hb | now apply getBestThumbnail_first_present].
  - intros m H1 H2 H3 H4. unfold getBestThumbnail. now rewrite H1, H2, H3, H4.
  - intros H1 H2 H3 H4. unfold getBestThumbnail. now rewrite H1, H2, H3, H4, Hd.
  - intros x H1. unfold getBestThumbnail. now rewrite H1.
Qed.

(** The three thumbnail sets of the specification. *)
Lemma getBestThumbnail_priority_witness :
  getBestThumbnail Sample.medium_and_default = Normal (Some "m.jpg") /\
  getBestThumbnail Sample.only_default = Normal (Some "d.jpg") /\
  getBestThumbnail Sample.all_five = Normal (Some "x.jpg").
Proof.
  split; [| split].
  - destruct (getBestThumbnail_priority Sample.medium_and_default _ eq_refl)
      as (_ & H & _ & _).
    exact (H _ eq_refl eq_refl eq_refl eq_refl).
  - destruct (getBestThumbnail_priority Sample.only_default _ eq_refl)
      as (_ & _ & H & _).
    exact (H eq_refl eq_refl eq_refl eq_refl).
  - destruct (getBestThumbnail_priority Sample.all_five _ eq_refl)
      as (_ & _ & _ & H).
    exact (H _ eq_refl).
Defined.

(* ------------------------------------------------------------------ *)
(** ** Precondition failures of [scrapeVideos] *)

(** C4. Without an authenticated user, and for an authenticated user
    without registered channels, [scrapeVideos] throws and leaves the
    world as it found it: the store is not written and no upstream
    request is sent. *)
Theorem scrapeVideos_precondition (api : Api) (fuel : nat) (w : World) :
  (forall session,
      truthy session = false ->
      scrapeVideos api fuel session w = (Threw (Error "User not authenticated"), w)) /\
  (forall userId,
      userId <> "" ->
      select_channels userId (store w) = [] ->
      scrapeVideos api fuel (Some userId) w
      = (Threw (Error "No channels found for the user"), w)).
Proof.
  split.
  - intros [u |] H; cbn in H |- *; [| reflexivity].
    destruct (u =? "") eqn:E; [reflexivity | discriminate].
  - intros u Hu Hc. unfold scrapeVideos.
    apply String.eqb_neq in Hu. rewrite Hu.
    unfold bind, query. now rewrite Hc.
Qed.

(** Nobody signed in, and Alice before she registered a channel. *)
Lemma scrapeVideos_precondition_witness :
  scrapeVideos Sample.catalog 5 None (Sample.start Db.empty)
  = (Threw (Error "User not authenticated"), Sample.start Db.empty) /\
  scrapeVideos Sample.catalog 5 (Some "alice") (Sample.start Db.empty)
  = (Threw (Error "No channels found for the user"), Sample.start Db.empty).
Proof.
  destruct (scrapeVideos_precondition Sample.catalog 5 (Sample.start Db.empty))
    as [H1 H2].
  split.
  - apply H1. reflexivity.
  - apply H2; [discriminate | reflexivity].
Defined.

(* ------------------------------------------------------------------ *)
(** ** Video detail fetcher *)

Lemma fetchVideoDetails_ids (api : Api) (videoIds : list string) data items :
  videos_list api videoIds = Ok data ->
  vl_items data = Some items ->
  map yv_videoId (fst (fetchVideoDetails api videoIds)) = map v_id items.
Proof.
  intros H1 H2. unfold fetchVideoDetails. rewrite H1, H2. cbn [fst].
  rewrite map_map. reflexivity.
Qed.

Lemma fetchVideoDetails_failed (api : Api) (videoIds : list string) :
  videos_list api videoIds = Failed ->
  fetchVideoDetails api videoIds = ([], [VideosList videoIds]).
Proof. intros H. unfold fetchVideoDetails. now rewrite H. Qed.

(** C6, as stated, fails: the fetcher returns whatever the upstream
    answers. Asked for ["a"], the upstream [Sample.chatty] answers with
    the two videos "b" and "c", and both are returned. *)
Lemma fetchVideoDetails_not_within :
  ~ details_within ["a"] (fst (fetchVideoDetails Sample.chatty ["a"])).
Proof.
  intros [Hlen _]. cbn in Hlen. lia.
Qed.

(** C6, amended. When the upstream answers a request with at most one
    resource per identifier and only with resources asked for, the
    records returned are at most as many as the identifiers given and
    carry only identifiers given; and whenever the call fails the
    result is the empty list. *)
Theorem fetchVideoDetails_within (api : Api) (videoIds : list string) :
  answers_requested api videoIds ->
  details_within videoIds (fst (fetchVideoDetails api videoIds)) /\
  (videos_list api videoIds = Failed ->
   fst (fetchVideoDetails api videoIds) = []).
Proof.
  intros Hc. split.
  - destruct (videos_list api videoIds) as [data |] eqn:E.
    + destruct (vl_items data) as [items |] eqn:Ei.
      * destruct (Hc data items E Ei) as [Hnd Hin].
        pose proof (fetchVideoDetails_ids api videoIds _ _ E Ei) as Hids.
        split.
        -- rewrite <- (length_map yv_videoId), Hids.
           now apply NoDup_incl_length.
        -- intros v Hv. apply Hin. rewrite <- Hids. now apply in_map.
      * unfold fetchVideoDetails. rewrite E, Ei. split; cbn; [lia | tauto].
    + rewrite (fetchVideoDetails_failed api videoIds E).
      split; cbn; [lia | tauto].
  - intros E. now rewrite (fetchVideoDetails_failed api videoIds E).
Qed.

(** The catalog answers for exactly the videos asked for; an upstream
    that is down yields the empty list. *)
Lemma fetchVideoDetails_within_witness :
  details_within ["v1"; "v2"] (fst (fetchVideoDetails Sample.catalog ["v1"; "v2"])) /\
  fst (fetchVideoDetails Sample.down ["v1"; "v2"]) = [].
Proof.
  split.
  - apply (fetchVideoDetails_within Sample.catalog ["v1"; "v2"]).
    intros data items H1 H2. cbn in H1. inversion H1; subst data.
    cbn in H2. inversion H2; subst items. cbn. split.
    + repeat constructor; cbn; intuition discriminate.
    + apply incl_refl.
  - apply (fetchVideoDetails_within Sample.down ["v1"; "v2"]).
    + intros data items H1. discriminate H1.
    + reflexivity.
Defined.

(* ------------------------------------------------------------------ *)
(** ** Video enumerator *)

Lemma truthy_token (t : string) : t <> "" -> truthy (Some t) = true.
Proof. intros H. cbn. apply String.eqb_neq in H. now rewrite H. Qed.

Lemma page_items_cons {A : Type} (p : option string * list A) rest :
  page_items (p :: rest) = snd p ++ page_items rest.
Proof. reflexivity. Qed.

(** Walking a sequence of pages costs one iteration and one request per
    page, and leaves the loop at the token after the last of them. *)
Lemma fetchAllVideosLoop_pages (api : Api) (channelId : string) pages :
  forall tok tok' acc fuel,
    video_pages api channelId tok pages tok' ->
    fetchAllVideosLoop api (length pages + fuel) channelId acc tok
    = match fetchAllVideosLoop api fuel channelId (acc ++ page_items pages) tok' with
      | Some (r, reqs) =>
          Some (r, page_requests (SearchVideos channelId) pages ++ reqs)
      | None => None
      end.
Proof.
  induction pages as [| p rest IH]; intros tok tok' acc fuel Hp.
  - inversion Hp; subst. cbn. rewrite app_nil_r.
    now destruct (fetchAllVideosLoop api fuel channelId acc tok') as [[r reqs] |].
  - inversion Hp as [| tok0 data t rest0 tok0' Hcall Htok Hne Hrest]; subst.
    cbn [length Nat.add fetchAllVideosLoop]. rewrite Hcall, Htok.
    rewrite (truthy_token _ Hne), (IH _ _ _ _ Hrest).
    rewrite page_items_cons. cbn [snd]. rewrite app_assoc.
    destruct (fetchAllVideosLoop api fuel channelId
                ((acc ++ search_video_ids data) ++ page_items rest) tok')
      as [[r reqs] |]; reflexivity.
Qed.

(** C7. When the upstream answers finitely many pages, each but the
    last with a continuation token, [fetchAllVideosForChannel] returns,
    for every iteration budget above the number of pages, the identifiers
    of all pages in order, having sent one request per page. When
    instead the request that follows some pages fails, it returns the
    identifiers of exactly these pages, and the failed request is the
    last one sent: there is no retry. *)
Theorem fetchAllVideosForChannel_pages (api : Api) (channelId : string)
    (pages : list (option string * list string)) (tok : option string)
    (fuel : nat) :
  video_pages api channelId None pages tok ->
  length pages < fuel ->
  (forall data,
      search_videos api channelId tok = Ok data ->
      truthy (sl_nextPageToken data) = false ->
      fetchAllVideosForChannel api fuel channelId
      = Some (page_items pages ++ search_video_ids data,
              page_requests (SearchVideos channelId) pages
                ++ [SearchVideos channelId tok])) /\
  (search_videos api channelId tok = Failed ->
   fetchAllVideosForChannel api fuel channelId
   = Some (page_items pages,
           page_requests (SearchVideos channelId) pages
             ++ [SearchVideos channelId tok])).
Proof.
  intros Hp Hfuel.
  replace fuel with (length pages + S (fuel - S (length pages))) by lia.
  unfold fetchAllVideosForChannel.
  rewrite (fetchAllVideosLoop_pages _ _ _ _ _ _ _ Hp). cbn [app fetchAllVideosLoop].
  split.
  - intros data Hcall Hlast. now rewrite Hcall, Hlast.
  - intros Hcall. now rewrite Hcall.
Qed.

(** Channel "UCX1" has two pages; channel "UCX2" fails on its second. *)
Lemma fetchAllVideosForChannel_pages_witness :
  fetchAllVideosForChannel Sample.catalog 2 "UCX1"
  = Some (["v1"; "v2"; "v3"],
          [SearchVideos "UCX1" None; SearchVideos "UCX1" (Some "p2")]) /\
  fetchAllVideosForChannel Sample.catalog 2 "UCX2"
  = Some (["v1"; "v2"],
          [SearchVideos "UCX2" None; SearchVideos "UCX2" (Some "p2")]).
Proof.
  split.
  - refine (proj1 (fetchAllVideosForChannel_pages Sample.catalog "UCX1"
                     [(None, ["v1"; "v2"])] (Some "p2") 2 _ _) _ eq_refl eq_refl).
    + eapply (vp_next Sample.catalog "UCX1" None
                {| sl_items := Some [Sample.hit "v1"; Sample.hit "v2"];
                   sl_nextPageToken := Some "p2" |} "p2").
      * reflexivity.
      * reflexivity.
      * discriminate.
      * apply vp_done.
    + cbn. lia.
  - refine (proj2 (fetchAllVideosForChannel_pages Sample.catalog "UCX2"
                     [(None, ["v1"; "v2"])] (Some "p2") 2 _ _) eq_refl).
    + eapply (vp_next Sample.catalog "UCX2" None
                {| sl_items := Some [Sample.hit "v1"; Sample.hit "v2"];
                   sl_nextPageToken := Some "p2" |} "p2").
      * reflexivity.
      * reflexivity.
      * discriminate.
      * apply vp_done.
    + cbn. lia.
Defined.

(* ------------------------------------------------------------------ *)
(** ** Comment fetcher *)

(** The loop never returns more than 100 comments when it is entered
    with at most 100. *)
Lemma fetchVideoCommentsLoop_bound (api : Api) (videoId : string) :
  forall fuel acc tok cs reqs,
    length acc <= 100 ->
    fetchVideoCommentsLoop api fuel videoId acc tok = Some (cs, reqs) ->
    length cs <= 100.
Proof.
  induction fuel as [| fuel IH]; intros acc tok cs reqs Hacc H.
  - discriminate H.
  - cbn [fetchVideoCommentsLoop] in H.
    destruct (commentThreads_list api videoId tok) as [data |].
    2: { inversion H; subst; exact Hacc. }
    destruct (thread_comments data) as [page | e].
    2: { inversion H; subst; exact Hacc. }
    destruct (Nat.leb_spec 100 (length (acc ++ page))) as [Hcap | Hless].
    + replace cs with (firstn 100 (acc ++ page)) by congruence.
      apply firstn_le_length.
    + destruct (truthy (ctl_nextPageToken data)).
      * destruct (fetchVideoCommentsLoop api fuel videoId (acc ++ page)
                    (ctl_nextPageToken data)) as [[r rs] |] eqn:E;
          [| discriminate H].
        inversion H; subst. apply (IH _ _ _ _ (Nat.lt_le_incl _ _ Hless) E).
      * inversion H; subst. lia.
Qed.

(** Pages that stay below the cap are walked like the pages of the
    video listing. *)
Lemma fetchVideoCommentsLoop_pages (api : Api) (videoId : string) pages :
  forall tok tok' acc fuel,
    comment_pages api videoId tok pages tok' ->
    length (acc ++ page_items pages) < 100 ->
    fetchVideoCommentsLoop api (length pages + fuel) videoId acc tok
    = match fetchVideoCommentsLoop api fuel videoId (acc ++ page_items pages) tok' with
      | Some (r, reqs) =>
          Some (r, page_requests (CommentThreadsList videoId) pages ++ reqs)
      | None => None
      end.
Proof.
  induction pages as [| p rest IH]; intros tok tok' acc fuel Hp Hlen.
  - inversion Hp; subst. cbn. rewrite app_nil_r.
    now destruct (fetchVideoCommentsLoop api fuel videoId acc tok') as [[r reqs] |].
  - inversion Hp as [| tok0 data cs t rest0 tok0' Hcall Hcs Htok Hne Hrest]; subst.
    rewrite page_items_cons in Hlen |- *. cbn [snd] in Hlen |- *.
    rewrite app_assoc in Hlen |- *.
    cbn [length Nat.add fetchVideoCommentsLoop]. rewrite Hcall, Hcs.
    destruct (Nat.leb_spec 100 (length (acc ++ cs))) as [Hcap | Hless].
    { rewrite length_app in Hlen. lia. }
    rewrite Htok, (truthy_token _ Hne).
    rewrite (IH _ _ _ _ Hrest Hlen).
    destruct (fetchVideoCommentsLoop api fuel videoId
                ((acc ++ cs) ++ page_items rest) tok') as [[r reqs] |];
      reflexivity.
Qed.

(** A page that cannot be read, because a thread comes without its
    top-level comment, ends the loop like a failed request. *)
Lemma fetchVideoCommentsLoop_malformed (api : Api) (videoId : string) fuel acc tok
    data e :
  commentThreads_list api videoId tok = Ok data ->
  thread_comments data = Abrupt e ->
  fetchVideoCommentsLoop api (S fuel) videoId acc tok
  = Some (acc, [CommentThreadsList videoId tok]).
Proof. intros H1 H2. cbn [fetchVideoCommentsLoop]. now rewrite H1, H2. Qed.

(** C3. [fetchVideoComments] never returns more than 100 comments.
    After any pages that together stay below 100 comments: a page that
    brings the count to 100 or more makes it return the first 100 of
    the accumulated comments, exactly 100, with the request for that
    page as the last one sent, whatever continuation token that page
    carries (there may be no earlier page at all); a failed request
    makes it return the comments of the pages before; and a page
    without continuation token ends it with all comments. *)
Theorem fetchVideoComments_cap (api : Api) (videoId : string) :
  (forall fuel cs reqs,
      fetchVideoComments api fuel videoId = Some (cs, reqs) ->
      length cs <= 100) /\
  (forall pages tok fuel,
      comment_pages api videoId None pages tok ->
      length (page_items pages) < 100 ->
      length pages < fuel ->
      let sent := page_requests (CommentThreadsList videoId) pages
                    ++ [CommentThreadsList videoId tok] in
      (forall data cs,
          commentThreads_list api videoId tok = Ok data ->
          thread_comments data = Normal cs ->
          100 <= length (page_items pages ++ cs) ->
          fetchVideoComments api fuel videoId
          = Some (firstn 100 (page_items pages ++ cs), sent) /\
          length (firstn 100 (page_items pages ++ cs)) = 100) /\
      (commentThreads_list api videoId tok = Failed ->
       fetchVideoComments api fuel videoId = Some (page_items pages, sent)) /\
      (forall data cs,
          commentThreads_list api videoId tok = Ok data ->
          thread_comments data = Normal cs ->
          length (page_items pages ++ cs) < 100 ->
          truthy (ctl_nextPageToken data) = false ->
          fetchVideoComments api fuel videoId
          = Some (page_items pages ++ cs, sent))).
Proof.
  split.
  - intros fuel cs reqs H.
    apply (fetchVideoCommentsLoop_bound api videoId fuel [] None cs reqs);
      [cbn; lia | exact H].
  - intros pages tok fuel Hp Hlen Hfuel sent.
    assert (Hrun : forall r,
               fetchVideoCommentsLoop api (S (fuel - S (length pages))) videoId
                 (page_items pages) tok = Some (r, [CommentThreadsList videoId tok]) ->
               fetchVideoComments api fuel videoId = Some (r, sent)).
    { intros r Hr. unfold fetchVideoComments.
      replace fuel with (length pages + S (fuel - S (length pages))) at 1 by lia.
      rewrite (fetchVideoCommentsLoop_pages api videoId pages None tok [] _ Hp Hlen).
      cbn [app]. now rewrite Hr. }
    split; [| split].
    + intros data cs Hcall Hcs Hcap. split.
      * apply Hrun. cbn [fetchVideoCommentsLoop]. rewrite Hcall, Hcs.
        destruct (Nat.leb_spec 100 (length (page_items pages ++ cs)));
          [reflexivity | lia].
      * now apply firstn_length_le.
    + intros Hcall. apply Hrun. cbn [fetchVideoCommentsLoop]. now rewrite Hcall.
    + intros data cs Hcall Hcs Hless Hlast. apply Hrun.
      cbn [fetchVideoCommentsLoop]. rewrite Hcall, Hcs.
      destruct (Nat.leb_spec 100 (length (page_items pages ++ cs))); [lia |].
      now rewrite Hlast.
Qed.

(** Video "v2" has a single page of 150 comments, "v3" fails on its
    second page, "v1" ends on its second page. *)
Lemma fetchVideoComments_cap_witness :
  (fetchVideoComments Sample.catalog 1 "v2"
   = Some (repeat (Sample.comment "spam") 100, [CommentThreadsList "v2" None]) /\
   length (repeat (Sample.comment "spam") 100) <= 100) /\
  fetchVideoComments Sample.catalog 2 "v3"
  = Some ([Sample.comment "only"],
          [CommentThreadsList "v3" None; CommentThreadsList "v3" (Some "c2")]) /\
  fetchVideoComments Sample.catalog 2 "v1"
  = Some ([Sample.comment "first"; Sample.comment "nice"; Sample.comment "last"],
          [CommentThreadsList "v1" None; CommentThreadsList "v1" (Some "c2")]).
Proof.
  pose (first_v3 := {| ctl_items := Some [Sample.thread "only"];
                       ctl_nextPageToken := Some "c2" |}).
  pose (first_v1 := {| ctl_items := Some [Sample.thread "first"; Sample.thread "nice"];
                       ctl_nextPageToken := Some "c2" |}).
  assert (Hv3 : comment_pages Sample.catalog "v3" None
                  [(None, [Sample.comment "only"])] (Some "c2")).
  { apply (cp_next Sample.catalog "v3" None first_v3 _ "c2");
      try reflexivity; [discriminate | apply cp_done]. }
  assert (Hv1 : comment_pages Sample.catalog "v1" None
                  [(None, [Sample.comment "first"; Sample.comment "nice"])]
                  (Some "c2")).
  { apply (cp_next Sample.catalog "v1" None first_v1 _ "c2");
      try reflexivity; [discriminate | apply cp_done]. }
  destruct (fetchVideoComments_cap Sample.catalog "v2") as [Hbound Hv2].
  destruct (Hv2 [] None 1 (cp_done Sample.catalog "v2" None)) as (Hcap & _ & _);
    [cbn; lia | cbn; lia |].
  destruct (Hcap {| ctl_items := Some (repeat (Sample.thread "spam") 150);
                    ctl_nextPageToken := Some "more" |}
              (repeat (Sample.comment "spam") 150) eq_refl eq_refl)
    as [Hrun _]; [vm_compute; lia |].
  split; [split | split].
  - exact Hrun.
  - exact (Hbound 1 _ _ Hrun).
  - destruct (proj2 (fetchVideoComments_cap Sample.catalog "v3") _ _ 2 Hv3)
      as (_ & Hfail & _); [cbn; lia | cbn; lia |].
    exact (Hfail eq_refl).
  - destruct (proj2 (fetchVideoComments_cap Sample.catalog "v1") _ _ 2 Hv1)
      as (_ & _ & Hlast); [cbn; lia | cbn; lia |].
    apply (Hlast {| ctl_items := Some [Sample.thread "last"];
                    ctl_nextPageToken := None |} [Sample.comment "last"]);
      try reflexivity.
    cbn; lia.
Defined.

(* ------------------------------------------------------------------ *)
(** ** Monad laws used below *)

Lemma bind_returned {A B : Type} (m : M A) (k : A -> M B) w b w' :
  bind m k w = (Returned b, w') ->
  exists a w1, m w = (Returned a, w1) /\ k a w1 = (Returned b, w').
Proof.
  unfold bind. destruct (m w) as [[a | e |] w1]; intros H; try discriminate H.
  now exists a, w1.
Qed.

Lemma counter_absent : counter None = Num 0 /\ counter (Some "") = Num 0.
Proof. split; reflexivity. Qed.

(* ------------------------------------------------------------------ *)
(** ** Statistics refresher *)

Lemma set_stats_twice (u1 u2 : StatsUpdate) (r : VideoRow) :
  set_stats u2 (set_stats u1 r) = set_stats u2 r.
Proof. reflexivity. Qed.

Lemma refreshed_by_step (api : Api) v rest r r1 r2 :
  refreshed_by api [v] r r1 ->
  refreshed_by api rest r1 r2 ->
  refreshed_by api (v :: rest) r r2.
Proof.
  intros [-> | (u1 & v1 & -> & Hin1 & Hid1 & Hd1)]
         [-> | (u2 & v2 & -> & Hin2 & Hid2 & Hd2)].
  - now left.
  - right. exists u2, v2. repeat split; auto. now right.
  - right. exists u1, v1. repeat split; auto.
    destruct Hin1 as [-> | []]. now left.
  - right. exists u2, v2. rewrite set_stats_twice. repeat split; auto. now right.
Qed.

(** The refresh loop rewrites video rows in place and touches nothing
    else in the store, whatever its outcome. *)
Lemma refreshVideos_frame (api : Api) :
  forall vs w out w',
    refreshVideos api vs w = (out, w') ->
    channels (store w') = channels (store w) /\
    comments (store w') = comments (store w) /\
    next_id (store w') = next_id (store w) /\
    exists f,
      videos (store w') = map f (videos (store w)) /\
      forall r, refreshed_by api vs r (f r).
Proof.
  induction vs as [| v rest IH]; intros w out w' H.
  - inversion H; subst. repeat split.
    exists (fun r => r). split; [now rewrite map_id | now left].
  - cbn [refreshVideos] in H. unfold bind at 1 in H. cbn [await sent] in H.
    destruct (fst (fetchVideoDetails api [vr_videoId v])) as [| d ds] eqn:Hd;
      cbn [fst fetchVideoDetails] in H, Hd; rewrite Hd in H.
    + unfold bind, ret in H. cbn [fst] in H.
      destruct (IH _ _ _ H) as (Hc & Hm & Hn & f & Hf & HR).
      repeat split; auto. exists f. split; [exact Hf |].
      intros r. apply (refreshed_by_step api v rest r r); [now left | apply HR].
    + unfold statsUpdateOf in H.
      destruct (yv_statistics d) as [st |].
      * unfold bind, newDate, ret, exec, with_store in H. cbn in H.
        destruct (IH _ _ _ H) as (Hc & Hm & Hn & f & Hf & HR).
        cbn in Hc, Hm, Hn, Hf. repeat split; auto.
        unfold update_where in Hf. rewrite map_map in Hf.
        eexists. split; [exact Hf |].
        intros r. cbn beta.
        eapply refreshed_by_step; [| apply HR].
        destruct (video_has_id (vr_videoId v) r) eqn:E; [| now left].
        right. eexists _, v. repeat split; [now left | | ].
        -- unfold video_has_id in E. now apply String.eqb_eq in E.
        -- cbn [fst fetchVideoDetails]. rewrite Hd. discriminate.
      * unfold bind, throw in H. inversion H; subst. cbn. repeat split.
        exists (fun r => r). split; [now rewrite map_id | now left].
Qed.





(** C1, at the failing input. Alice and Bob both hold a row for the
    upstream video "v1". Alice's refresh selects her rows, but its
    update is keyed on the upstream identifier alone, so Bob's row gets
    the new counters and the new [updatedAt] as well. *)
Theorem updateVideoStatistics_writes_other_user :
  let bob := Sample.video_row 1 "v1" "bob" in
  let run := updateVideoStatistics Sample.catalog (Some "alice")
               (Sample.start Sample.shared_video) in
  fst run = Returned tt /\
  videos (store (snd run))
  = [set_stats Sample.refreshed (Sample.video_row 0 "v1" "alice");
     set_stats Sample.refreshed bob] /\
  vr_userId bob = "bob" /\
  vr_viewCount bob = Num 1 /\
  vr_viewCount (set_stats Sample.refreshed bob) = Num 10 /\
  vr_updatedAt bob = DateAt 0 /\
  vr_updatedAt (set_stats Sample.refreshed bob) = DateAt 5.
Proof. vm_compute. repeat split. Qed.

(** What a refresh may change in a row, on the other hand, is as
    stated: only the four counters and [updatedAt]. *)
Lemma set_stats_frame (u : StatsUpdate) (r : VideoRow) :
  vr_id (set_stats u r) = vr_id r /\
  vr_videoId (set_stats u r) = vr_videoId r /\
  vr_title (set_stats u r) = vr_title r /\
  vr_description (set_stats u r) = vr_description r /\
  vr_publishedAt (set_stats u r) = vr_publishedAt r /\
  vr_thumbnailUrl (set_stats u r) = vr_thumbnailUrl r /\
  vr_channelId (set_stats u r) = vr_channelId r /\
  vr_channelTitle (set_stats u r) = vr_channelTitle r /\
  vr_userId (set_stats u r) = vr_userId r /\
  vr_createdAt (set_stats u r) = vr_createdAt r.
Proof. repeat split. Qed.

(* ------------------------------------------------------------------ *)
(** ** Absent statistics *)

(** Absent counters of a statistics object that is present are stored
    as 0. *)
Lemma newVideoOf_counters (video : YouTubeVideo) (channelId userId : string)
    (n : NewVideo) (st : VideoStatistics) :
  newVideoOf video channelId userId = Normal n ->
  yv_statistics video = Some st ->
  (viewCount st = None -> nv_viewCount n = Num 0) /\
  (likeCount st = None -> nv_likeCount n = Num 0) /\
  (dislikeCount st = None -> nv_dislikeCount n = Num 0) /\
  (commentCount st = None -> nv_commentCount n = Num 0).
Proof.
  unfold newVideoOf. intros H Hst. rewrite Hst in H.
  destruct (yv_snippet video) as [sn |]; [| discriminate H].
  destruct (thumbnails sn) as [th |]; [| discriminate H].
  destruct (getBestThumbnail th); [| discriminate H].
  inversion H; subst; cbn.
  repeat split; intros ->; reflexivity.
Qed.

(** C5, at the failing input. The channel "UCX1" lists three videos
    whose detail records carry no statistics object. Building the row
    of the first one reads [video.statistics.viewCount] and throws; the
    exception leaves [scrapeVideos], and no video row was stored. *)
Theorem scrapeVideos_absent_statistics_throws :
  let run := scrapeVideos Sample.bare 5 (Some "alice")
               (Sample.start (Sample.one_channel (Some "UCX1"))) in
  fst run = Threw (TypeError "video.statistics is undefined") /\
  videos (store (snd run)) = [].
Proof. vm_compute. split; reflexivity. Qed.

(* ------------------------------------------------------------------ *)
(** ** Stepping through actions *)

Lemma eval_returned {A : Type} (c : completion A) w a w' :
  eval c w = (Returned a, w') -> c = Normal a /\ w' = w.
Proof.
  destruct c as [a0 | e]; cbn; intros H; inversion H; subst; auto.
Qed.

Lemma await_returned {A : Type} (r : option (A * list Request)) w a w' :
  await r w = (Returned a, w') -> exists rs, r = Some (a, rs) /\ w' = sent rs w.
Proof.
  destruct r as [[a0 rs] |]; cbn; intros H; inversion H; subst.
  now exists rs.
Qed.

Section Respects.

Context {R : World -> World -> Prop}.
Hypothesis R_refl : forall w, R w w.
Hypothesis R_trans : forall w1 w2 w3, R w1 w2 -> R w2 w3 -> R w1 w3.

Lemma respects_ret {A : Type} (a : A) : respects R (ret a).
Proof. intros w out w' H. inversion H; subst. apply R_refl. Qed.

Lemma respects_throw {A : Type} (e : exn) : respects R (@throw A e).
Proof. intros w out w' H. inversion H; subst. apply R_refl. Qed.

Lemma respects_eval {A : Type} (c : completion A) : respects R (eval c).
Proof. destruct c; [apply respects_ret | apply respects_throw]. Qed.

Lemma respects_query {A : Type} (q : Store -> A) : respects R (query q).
Proof. intros w out w' H. inversion H; subst. apply R_refl. Qed.

Lemma respects_bind {A B : Type} (m : M A) (k : A -> M B) :
  respects R m -> (forall a, respects R (k a)) -> respects R (bind m k).
Proof.
  intros Hm Hk w out w' H. unfold bind in H.
  destruct (m w) as [[a | e |] w1] eqn:E.
  - apply (R_trans _ w1); [apply (Hm _ _ _ E) | apply (Hk a _ _ _ H)].
  - inversion H; subst. apply (Hm _ _ _ E).
  - inversion H; subst. apply (Hm _ _ _ E).
Qed.

End Respects.

Lemma search_queries_app (rs1 rs2 : list Request) :
  search_queries (rs1 ++ rs2) = search_queries rs1 ++ search_queries rs2.
Proof. apply flat_map_app. Qed.

Lemma quiet_refl (w : World) : quiet w w.
Proof. exists []. now rewrite app_nil_r. Qed.

Lemma quiet_trans (w1 w2 w3 : World) : quiet w1 w2 -> quiet w2 w3 -> quiet w1 w3.
Proof.
  intros (rs1 & H1 & Q1) (rs2 & H2 & Q2). exists (rs1 ++ rs2).
  rewrite H2, H1, app_assoc, search_queries_app, Q1, Q2. auto.
Qed.

Lemma quiet_same (w w' : World) : requests w' = requests w -> quiet w w'.
Proof. intros H. exists []. now rewrite app_nil_r. Qed.

Lemma quiet_await {A : Type} (r : option (A * list Request)) :
  (forall a rs, r = Some (a, rs) -> search_queries rs = []) ->
  respects quiet (await r).
Proof.
  intros Hr w out w' H. destruct r as [[a rs] |]; cbn in H; inversion H; subst.
  - exists rs. split; [reflexivity | now apply (Hr a)].
  - apply quiet_refl.
Qed.

Lemma quiet_inserting {Row : Type} (ins : nat -> Store -> Row * Store) :
  respects quiet (inserting ins).
Proof.
  intros w out w' H. unfold inserting in H.
  destruct (ins (now w) (store w)). inversion H; subst. now apply quiet_same.
Qed.

Lemma quiet_exec (f : Store -> Store) : respects quiet (exec f).
Proof. intros w out w' H. inversion H; subst. now apply quiet_same. Qed.

Lemma quiet_newDate : respects quiet newDate.
Proof. intros w out w' H. inversion H; subst. now apply quiet_same. Qed.

Lemma fetchAllVideosLoop_quiet (api : Api) (channelId : string) :
  forall fuel acc tok r rs,
    fetchAllVideosLoop api fuel channelId acc tok = Some (r, rs) ->
    search_queries rs = [].
Proof.
  induction fuel as [| fuel IH]; intros acc tok r rs H; [discriminate H |].
  cbn [fetchAllVideosLoop] in H.
  destruct (search_videos api channelId tok) as [data |].
  - destruct (truthy (sl_nextPageToken data)).
    + destruct (fetchAllVideosLoop api fuel channelId
                  (acc ++ search_video_ids data) (sl_nextPageToken data))
        as [[r0 rs0] |] eqn:E; [| discriminate H].
      inversion H; subst. cbn. apply (IH _ _ _ _ E).
    + inversion H; subst. reflexivity.
  - inversion H; subst. reflexivity.
Qed.

Lemma fetchVideoCommentsLoop_quiet (api : Api) (videoId : string) :
  forall fuel acc tok r rs,
    fetchVideoCommentsLoop api fuel videoId acc tok = Some (r, rs) ->
    search_queries rs = [].
Proof.
  induction fuel as [| fuel IH]; intros acc tok r rs H; [discriminate H |].
  cbn [fetchVideoCommentsLoop] in H.
  destruct (commentThreads_list api videoId tok) as [data |].
  - destruct (thread_comments data) as [page | e].
    + destruct (100 <=? length (acc ++ page))%nat.
      * replace rs with [CommentThreadsList videoId tok] by congruence.
        reflexivity.
      * destruct (truthy (ctl_nextPageToken data)).
        -- destruct (fetchVideoCommentsLoop api fuel videoId (acc ++ page)
                       (ctl_nextPageToken data)) as [[r0 rs0] |] eqn:E;
             [| discriminate H].
           inversion H; subst. cbn. apply (IH _ _ _ _ E).
        -- inversion H; subst. reflexivity.
    + inversion H; subst. reflexivity.
  - inversion H; subst. reflexivity.
Qed.

Create HintDb quiet.
#[local] Hint Resolve quiet_refl quiet_trans : quiet.

Lemma insertComments_quiet (videoId : RowId) (userId : string) :
  forall cs acc, respects quiet (insertComments videoId userId cs acc).
Proof.
  induction cs as [| c rest IH]; intros acc; cbn [insertComments].
  - apply respects_ret; auto with quiet.
  - apply (respects_bind quiet_trans); [apply respects_eval; auto with quiet |].
    intros n. apply (respects_bind quiet_trans); [apply quiet_inserting |].
    intros row. apply IH.
Qed.

Lemma processVideos_quiet (api : Api) (fuel : nat) (userId channelId : string) :
  forall vs nv nc, respects quiet (processVideos api fuel userId channelId vs nv nc).
Proof.
  induction vs as [| v rest IH]; intros nv nc; cbn [processVideos].
  - apply respects_ret; auto with quiet.
  - apply (respects_bind quiet_trans); [apply respects_query; auto with quiet |].
    intros existing. apply (respects_bind quiet_trans).
    { destruct existing.
      - apply (respects_bind quiet_trans); [apply respects_eval; auto with quiet |].
        intros n. apply (respects_bind quiet_trans); [apply quiet_inserting |].
        intros row. apply respects_ret; auto with quiet.
      - apply respects_ret; auto with quiet. }
    intros r. apply (respects_bind quiet_trans).
    { apply quiet_await. intros a rs. apply fetchVideoCommentsLoop_quiet. }
    intros cs. apply (respects_bind quiet_trans); [apply insertComments_quiet |].
    intros nc'. apply IH.
Qed.

Lemma processChannel_quiet (api : Api) (fuel : nat) (userId channelId : string) acc :
  respects quiet (processChannel api fuel userId channelId acc).
Proof.
  unfold processChannel. apply (respects_bind quiet_trans).
  { apply quiet_await. intros a rs. apply fetchAllVideosLoop_quiet. }
  intros ids. apply (respects_bind quiet_trans).
  { apply quiet_await. intros a rs H. inversion H; subst. reflexivity. }
  intros vs. apply processVideos_quiet.
Qed.

(* ------------------------------------------------------------------ *)
(** ** Channel resolution *)

Lemma getChannelId_requests (api : Api) (name : string) :
  snd (getChannelId api name) = [SearchChannel name].
Proof. reflexivity. Qed.

Lemma getChannelId_truthy (api : Api) (name channelId : string) :
  fst (getChannelId api name) = Some channelId -> channelId <> "".
Proof.
  unfold getChannelId. cbn [fst].
  destruct (search_channel api name) as [data |]; [| discriminate].
  unfold or_null.
  match goal with |- context [truthy ?x] => destruct x as [s |] eqn:E end;
    cbn [truthy]; [| discriminate].
  destruct (s =? "") eqn:Es; cbn [negb]; [discriminate |].
  intros H. inversion H; subst. now apply String.eqb_neq.
Qed.

Lemma or_null_some (x : option string) (s : string) :
  or_null x = Some s -> x = Some s /\ truthy x = true.
Proof.
  unfold or_null. destruct (truthy x) eqn:T; [| discriminate].
  intros ->. auto.
Qed.

Lemma or_null_none (x : option string) :
  or_null x = None -> truthy x = false.
Proof.
  unfold or_null. destruct (truthy x) eqn:T; [| reflexivity].
  intros ->. discriminate T.
Qed.

Lemma prefix_nil {A : Type} (l : list A) : prefix [] l.
Proof. now exists l. Qed.

Lemma prefix_cons {A : Type} (a : A) (l1 l2 : list A) :
  prefix l1 l2 -> prefix (a :: l1) (a :: l2).
Proof. intros [l3 ->]. now exists l3. Qed.

(** The channel searches of the channel loop are, in order, the names
    of the rows without identifier; all of them when the loop returns,
    the first ones when it is left by an exception. *)
Lemma processChannels_searches (api : Api) (fuel : nat) (userId : string) :
  forall chs acc w out w',
    processChannels api fuel userId chs acc w = (out, w') ->
    exists rs,
      requests w' = requests w ++ rs /\
      prefix (search_queries rs) (map ch_name (filter unresolved chs)) /\
      (forall a, out = Returned a ->
         search_queries rs = map ch_name (filter unresolved chs)).
Proof.
  induction chs as [| c rest IH]; intros acc w out w' H.
  - inversion H; subst. exists []. rewrite app_nil_r.
    repeat split. apply prefix_nil.
  - cbn [processChannels] in H. cbn [filter].
    destruct (or_null (ch_channelId c)) as [channelId |] eqn:Eid.
    + apply or_null_some in Eid. destruct Eid as [_ Eid].
      assert (Hu : unresolved c = false) by (unfold unresolved; now rewrite Eid).
      rewrite !Hu. unfold bind in H.
      destruct (processChannel api fuel userId channelId acc w)
        as [[a | e |] w1] eqn:E;
        destruct (processChannel_quiet api fuel userId channelId acc _ _ _ E)
        as (rs1 & Hrs1 & Hq1).
      * destruct (IH _ _ _ _ H) as (rs2 & Hrs2 & Hp & Hr).
        exists (rs1 ++ rs2).
        rewrite Hrs2, Hrs1, app_assoc, search_queries_app, Hq1. cbn [app]. auto.
      * inversion H; subst. exists rs1. rewrite Hq1.
        repeat split; [assumption | apply prefix_nil | discriminate].
      * inversion H; subst. exists rs1. rewrite Hq1.
        repeat split; [assumption | apply prefix_nil | discriminate].
    + apply or_null_none in Eid.
      assert (Hu : unresolved c = true) by (unfold unresolved; now rewrite Eid).
      rewrite !Hu. cbn [map].
      unfold bind at 1 in H. cbn [await] in H.
      destruct (getChannelId api (ch_name c)) as [found rs0] eqn:Eg.
      assert (rs0 = [SearchChannel (ch_name c)]) as ->.
      { now rewrite <- (getChannelId_requests api (ch_name c)), Eg. }
      destruct found as [channelId |].
      * unfold bind at 1 in H. cbn [newDate] in H.
        unfold bind at 1 in H. cbn [exec] in H.
        unfold bind at 1 in H.
        match type of H with
        | context [processChannel api fuel userId channelId acc ?w0] =>
            destruct (processChannel api fuel userId channelId acc w0)
              as [[a | e |] w1] eqn:E;
            destruct (processChannel_quiet api fuel userId channelId acc _ _ _ E)
              as (rs1 & Hrs1 & Hq1)
        end; cbn in Hrs1.
        -- destruct (IH _ _ _ _ H) as (rs2 & Hrs2 & Hp & Hr).
           exists (SearchChannel (ch_name c) :: rs1 ++ rs2).
           rewrite Hrs2, Hrs1.
           change (SearchChannel (ch_name c) :: rs1 ++ rs2)
             with ([SearchChannel (ch_name c)] ++ rs1 ++ rs2).
           rewrite !search_queries_app, Hq1, <- !app_assoc. cbn.
           repeat split; [now apply prefix_cons |].
           intros a0 Ha. f_equal. now apply (Hr a0).
        -- inversion H; subst.
           exists (SearchChannel (ch_name c) :: rs1). rewrite Hrs1.
           change (SearchChannel (ch_name c) :: rs1)
             with ([SearchChannel (ch_name c)] ++ rs1).
           rewrite search_queries_app, Hq1, <- app_assoc. cbn.
           repeat split; [apply prefix_cons, prefix_nil | discriminate].
        -- inversion H; subst.
           exists (SearchChannel (ch_name c) :: rs1). rewrite Hrs1.
           change (SearchChannel (ch_name c) :: rs1)
             with ([SearchChannel (ch_name c)] ++ rs1).
           rewrite search_queries_app, Hq1, <- app_assoc. cbn.
           repeat split; [apply prefix_cons, prefix_nil | discriminate].
      * destruct (IH _ _ _ _ H) as (rs2 & Hrs2 & Hp & Hr). cbn in Hrs2.
        exists (SearchChannel (ch_name c) :: rs2). rewrite Hrs2, <- app_assoc.
        cbn. repeat split; [now apply prefix_cons |].
        intros a0 Ha. f_equal. now apply (Hr a0).
Qed.

(* ------------------------------------------------------------------ *)
(** ** The video loop *)


Lemma newCommentOf_snippet (c : YouTubeComment) (videoId : RowId) (userId : string) n :
  newCommentOf c videoId userId = Normal n -> yc_snippet c <> None.
Proof.
  unfold newCommentOf. destruct (yc_snippet c); [discriminate | discriminate].
Qed.

(** When the comment loop returns, it has appended one row per
    comment, with the values of [newComment], and touched nothing
    else. *)
Lemma insertComments_returned (videoId : RowId) (userId : string) :
  forall cs acc w acc' w',
    insertComments videoId userId cs acc w = (Returned acc', w') ->
    exists added,
      acc' = acc ++ added /\
      comments (store w') = comments (store w) ++ added /\
      videos (store w') = videos (store w) /\
      channels (store w') = channels (store w) /\
      map values_of added = flat_map (comment_value videoId userId) cs /\
      Forall (fun c => yc_snippet c <> None) cs.
Proof.
  induction cs as [| c rest IH]; intros acc w acc' w' H.
  - inversion H; subst. exists []. rewrite !app_nil_r. repeat split. constructor.
  - cbn [insertComments] in H.
    apply bind_returned in H. destruct H as (n & w1 & Hn & H).
    apply eval_returned in Hn. destruct Hn as [Hn ->].
    apply bind_returned in H. destruct H as (row & w2 & Hrow & H).
    unfold inserting, insert_comment in Hrow. inversion Hrow; subst row w2.
    clear Hrow.
    destruct (IH _ _ _ _ H) as (added & -> & Hc & Hv & Hch & Hvals & Hall).
    cbn in Hc, Hv, Hch.
    exists (new_comment_row (next_id (store w)) n :: added).
    rewrite Hc, <- !app_assoc. repeat split; auto.
    + cbn [map flat_map]. rewrite Hvals. unfold comment_value at 2.
      rewrite Hn. destruct n; reflexivity.
    + constructor; [now apply (newCommentOf_snippet c videoId userId n) | exact Hall].
Qed.


Lemma newVideoOf_key (video : YouTubeVideo) (channelId userId : string) n :
  newVideoOf video channelId userId = Normal n ->
  nv_videoId n = yv_videoId video /\ nv_userId n = userId.
Proof.
  unfold newVideoOf.
  destruct (yv_snippet video) as [sn |]; [| discriminate].
  destruct (thumbnails sn) as [th |]; [| discriminate].
  destruct (getBestThumbnail th); [| discriminate].
  destruct (yv_statistics video); [| discriminate].
  intros H. inversion H; subst. auto.
Qed.

Lemma stored_app (V X : list VideoRow) (userId : string) (video : YouTubeVideo) :
  stored V userId video -> stored (V ++ X) userId video.
Proof.
  unfold stored. rewrite filter_app.
  destruct (filter (video_is (yv_videoId video) userId) V); [congruence | discriminate].
Qed.

(** The first row found for a video stays the first when rows are
    appended, and with it the values of its comment rows. *)
Lemma comment_values_app (api : Api) (fuel : nat) (userId : string)
    (V X : list VideoRow) (video : YouTubeVideo) :
  stored V userId video ->
  comment_values api fuel userId (V ++ X) video
  = comment_values api fuel userId V video.
Proof.
  unfold stored, comment_values. rewrite filter_app.
  destruct (filter (video_is (yv_videoId video) userId) V); [congruence | reflexivity].
Qed.

Lemma firstn_1_nil {A : Type} (l : list A) : firstn 1 l = [] -> l = [].
Proof. destruct l; [reflexivity | discriminate]. Qed.

Lemma firstn_1_cons {A : Type} (l : list A) a r :
  firstn 1 l = a :: r -> exists t, l = a :: t.
Proof. destruct l; [discriminate |]. intros H. inversion H; subst. eauto. Qed.

(** When the video loop returns: both tables have only grown, by the
    rows it reports; the comments of every video could be fetched and
    inserted; every video now has a row; and the comment rows added are
    the full sets of the videos, in order. *)
Lemma processVideos_returned (api : Api) (fuel : nat) (userId channelId : string) :
  forall vs nv nc w nv' nc' w',
    processVideos api fuel userId channelId vs nv nc w = (Returned (nv', nc'), w') ->
    exists addedV addedC,
      nv' = nv ++ addedV /\ nc' = nc ++ addedC /\
      videos (store w') = videos (store w) ++ addedV /\
      comments (store w') = comments (store w) ++ addedC /\
      channels (store w') = channels (store w) /\
      Forall (comments_ready api fuel) vs /\
      Forall (stored (videos (store w')) userId) vs /\
      map values_of addedC
      = flat_map (comment_values api fuel userId (videos (store w'))) vs.
Proof.
  induction vs as [| v rest IH]; intros nv nc w nv' nc' w' H.
  - inversion H; subst. exists [], []. rewrite !app_nil_r.
    repeat split; constructor.
  - cbn [processVideos] in H.
    apply bind_returned in H. destruct H as (existing & w1 & Hq & H).
    unfold query in Hq. inversion Hq; subst existing w1. clear Hq.
    apply bind_returned in H. destruct H as ([videoId nv1] & w2 & Hr & H).
    apply bind_returned in H. destruct H as (cs & w3 & Hcs & H).
    apply await_returned in Hcs. destruct Hcs as (rs & Hcs & ->).
    apply bind_returned in H. destruct H as (nc1 & w4 & Hins & H).
    cbn [fst snd] in Hins, H.
    destruct (insertComments_returned _ _ _ _ _ _ _ Hins)
      as (added1 & -> & Hc1 & Hv1 & Hch1 & Hvals1 & Hall1).
    destruct (IH _ _ _ _ _ _ H)
      as (addedV & addedC & -> & -> & Hv & Hc & Hch & Hready & Hstored & Hvals).
    cbn in Hc1, Hv1, Hch1.
    (* the row that carries the comments of [v] *)
    assert (Hrow : exists addedV0 row t,
               nv1 = nv ++ addedV0 /\
               videos (store w2) = videos (store w) ++ addedV0 /\
               comments (store w2) = comments (store w) /\
               channels (store w2) = channels (store w) /\
               filter (video_is (yv_videoId v) userId) (videos (store w2)) = row :: t /\
               vr_id row = videoId).
    { destruct (select_video (yv_videoId v) userId (store w)) as [| e es] eqn:Esel.
      - apply bind_returned in Hr. destruct Hr as (n & w1 & Hn & Hr).
        apply eval_returned in Hn. destruct Hn as [Hn ->].
        apply bind_returned in Hr. destruct Hr as (row & w1 & Hrow & Hr).
        unfold inserting, insert_video in Hrow. inversion Hrow; subst row w1.
        clear Hrow. inversion Hr; subst videoId nv1 w2. clear Hr.
        destruct (newVideoOf_key _ _ _ _ Hn) as [Hk1 Hk2].
        exists [new_video_row (next_id (store w)) (now w) n],
               (new_video_row (next_id (store w)) (now w) n), [].
        cbn. repeat split.
        rewrite filter_app. unfold select_video in Esel.
        apply firstn_1_nil in Esel. rewrite Esel. cbn.
        unfold video_is. cbn. rewrite Hk1, Hk2, !String.eqb_refl. reflexivity.
      - inversion Hr; subst videoId nv1 w2. clear Hr.
        unfold select_video in Esel. apply firstn_1_cons in Esel.
        destruct Esel as [t Ht].
        exists [], e, t. rewrite !app_nil_r. repeat split. exact Ht. }
    destruct Hrow as (addedV0 & row & t & -> & Hv2 & Hc2 & Hch2 & Hfil & Hid).
    assert (Hfil' : exists t', filter (video_is (yv_videoId v) userId)
                                 (videos (store w')) = row :: t').
    { rewrite Hv, Hv1, filter_app, Hfil. eexists. reflexivity. }
    destruct Hfil' as [t' Hfil'].
    exists (addedV0 ++ addedV), (added1 ++ addedC).
    split; [now rewrite app_assoc |]. split; [now rewrite app_assoc |].
    split; [now rewrite Hv, Hv1, Hv2, app_assoc |].
    split; [now rewrite Hc, Hc1, Hc2, app_assoc |].
    split; [now rewrite Hch, Hch1, Hch2 |].
    split; [| split].
    + constructor; [| exact Hready]. exists cs, rs. auto.
    + constructor; [| exact Hstored].
      unfold stored. rewrite Hfil'. discriminate.
    + rewrite map_app, Hvals, Hvals1. cbn [flat_map]. f_equal.
      unfold comment_values. rewrite Hfil', Hcs, Hid. reflexivity.
Qed.


(* ------------------------------------------------------------------ *)
(** ** The channel loop *)

Lemma listed_eq (api : Api) (fuel : nat) (channelId : string) ids rs :
  fetchAllVideosForChannel api fuel channelId = Some (ids, rs) ->
  listed api fuel channelId = fst (fetchVideoDetails api ids).
Proof. intros H. unfold listed. now rewrite H. Qed.

Lemma processChannel_returned (api : Api) (fuel : nat) (userId channelId : string) :
  forall acc w acc' w',
    processChannel api fuel userId channelId acc w = (Returned acc', w') ->
    exists addedV addedC,
      fst acc' = fst acc ++ addedV /\ snd acc' = snd acc ++ addedC /\
      videos (store w') = videos (store w) ++ addedV /\
      comments (store w') = comments (store w) ++ addedC /\
      channels (store w') = channels (store w) /\
      channel_ready api fuel channelId /\
      Forall (stored (videos (store w')) userId) (listed api fuel channelId) /\
      map values_of addedC
      = flat_map (comment_values api fuel userId (videos (store w')))
          (listed api fuel channelId).
Proof.
  intros acc w [nv' nc'] w' H. unfold processChannel in H.
  apply bind_returned in H. destruct H as (ids & w1 & Hids & H).
  apply await_returned in Hids. destruct Hids as (rs & Hids & ->).
  apply bind_returned in H. destruct H as (vs & w2 & Hvs & H).
  apply await_returned in Hvs. destruct Hvs as (rs' & Hvs & ->).
  assert (vs = fst (fetchVideoDetails api ids)) as Evs.
  { inversion Hvs as [E]. now rewrite E. }
  rewrite (listed_eq api fuel channelId ids rs Hids), <- Evs.
  destruct (processVideos_returned _ _ _ _ _ _ _ _ _ _ _ H)
    as (addedV & addedC & -> & -> & Hv & Hc & Hch & Hready & Hstored & Hvals).
  exists addedV, addedC. cbn in Hv, Hc, Hch. repeat split; auto.
  - eauto.
  - rewrite (listed_eq api fuel channelId ids rs Hids), <- Evs. exact Hready.
Qed.


Lemma resolved_by_refl (api : Api) (chs : list ChannelRow) (r : ChannelRow) :
  resolved_by api chs r r.
Proof. unfold resolved_by. auto. Qed.

Lemma resolved_by_weaken (api : Api) (c : ChannelRow) (chs : list ChannelRow) r r' :
  resolved_by api chs r r' -> resolved_by api (c :: chs) r r'.
Proof.
  intros (H1 & H2 & H3 & [H4 | (c0 & Hin & H5)]); repeat split; auto.
  right. exists c0. split; [now right | exact H5].
Qed.

Lemma resolved_by_step (api : Api) (c : ChannelRow) (chs : list ChannelRow) r r1 r2 :
  resolved_by api [c] r r1 ->
  resolved_by api chs r1 r2 ->
  resolved_by api (c :: chs) r r2.
Proof.
  intros (A1 & A2 & A3 & A4) (B1 & B2 & B3 & B4).
  repeat split; try congruence.
  destruct B4 as [B4 | (c0 & Hin & Hid & Hu & Hc & Ht)].
  - destruct A4 as [A4 | (c0 & Hin & Hid & Hu & Hc & Ht)].
    + left. congruence.
    + right. exists c0. repeat split; auto.
      * destruct Hin as [-> | []]. now left.
      * congruence.
      * now rewrite B4.
  - right. exists c0. repeat split; auto; [now right | congruence].
Qed.

Lemma flat_map_comment_values_app (api : Api) (fuel : nat) (userId : string)
    (V X : list VideoRow) (vs : list YouTubeVideo) :
  Forall (stored V userId) vs ->
  flat_map (comment_values api fuel userId (V ++ X)) vs
  = flat_map (comment_values api fuel userId V) vs.
Proof.
  induction 1 as [| v vs Hv Hvs IH]; [reflexivity |].
  cbn [flat_map]. now rewrite IH, comment_values_app.
Qed.

Lemma resolved_stored (api : Api) (c : ChannelRow) (channelId : string) :
  or_null (ch_channelId c) = Some channelId -> resolved api c = Some channelId.
Proof. intros H. unfold resolved. now rewrite H. Qed.

Lemma resolved_found (api : Api) (c : ChannelRow) :
  or_null (ch_channelId c) = None ->
  resolved api c = fst (getChannelId api (ch_name c)).
Proof. intros H. unfold resolved. now rewrite H. Qed.

Lemma update_channel_resolved_by (api : Api) (c : ChannelRow) (userId channelId : string)
    (d : Date) (r : ChannelRow) :
  or_null (ch_channelId c) = None ->
  fst (getChannelId api (ch_name c)) = Some channelId ->
  resolved_by api [c] r
    (if channel_is (ch_id c) userId r then set_channelId channelId d r else r).
Proof.
  intros Hnone Hfound.
  destruct (channel_is (ch_id c) userId r) eqn:E; [| apply resolved_by_refl].
  unfold channel_is in E. apply andb_prop in E. destruct E as [E _].
  apply Nat.eqb_eq in E.
  repeat split. right. exists c. repeat split.
  - now left.
  - now rewrite E.
  - unfold unresolved. now rewrite (or_null_none _ Hnone).
  - cbn [set_channelId ch_channelId]. now rewrite Hfound.
  - cbn [set_channelId ch_channelId].
    apply truthy_token, (getChannelId_truthy api (ch_name c)), Hfound.
Qed.

(** When the channel loop returns: the tables of videos and comments
    have only grown; the channel rows are the old ones, some with the
    identifier that was found; every channel it worked on is ready and
    has all its videos stored; and the comment rows added are the full
    sets of all listed videos, in order. *)
Lemma processChannels_returned (api : Api) (fuel : nat) (userId : string) :
  forall chs acc w acc' w',
    processChannels api fuel userId chs acc w = (Returned acc', w') ->
    exists addedV addedC g,
      fst acc' = fst acc ++ addedV /\ snd acc' = snd acc ++ addedC /\
      videos (store w') = videos (store w) ++ addedV /\
      comments (store w') = comments (store w) ++ addedC /\
      channels (store w') = map g (channels (store w)) /\
      (forall r, resolved_by api chs r (g r)) /\
      (forall c channelId,
          In c chs -> resolved api c = Some channelId ->
          channel_ready api fuel channelId /\
          Forall (stored (videos (store w')) userId) (listed api fuel channelId)) /\
      map values_of addedC
      = flat_map (comment_values api fuel userId (videos (store w')))
          (listed_videos api fuel chs).
Proof.
  induction chs as [| c rest IH]; intros acc w acc' w' H.
  - inversion H; subst. exists [], [], (fun r => r).
    rewrite !app_nil_r, map_id. do 5 (split; [reflexivity |]).
    split; [intros r; apply resolved_by_refl |].
    split; [intros c x [] | reflexivity].
  - cbn [processChannels] in H.
    assert (Hstep : exists channelId w1 w2 acc1 g1,
               (resolved api c = Some channelId /\
                channels (store w1) = map g1 (channels (store w)) /\
                (forall r, resolved_by api [c] r (g1 r)) /\
                videos (store w1) = videos (store w) /\
                comments (store w1) = comments (store w) /\
                processChannel api fuel userId channelId acc w1 = (Returned acc1, w2) /\
                processChannels api fuel userId rest acc1 w2 = (Returned acc', w'))
               \/
               (resolved api c = None /\
                channels (store w2) = channels (store w) /\
                videos (store w2) = videos (store w) /\
                comments (store w2) = comments (store w) /\
                acc1 = acc /\
                processChannels api fuel userId rest acc w2 = (Returned acc', w'))).
    { destruct (or_null (ch_channelId c)) as [channelId |] eqn:Eid.
      - apply bind_returned in H. destruct H as (acc1 & w2 & Hc & H).
        exists channelId, w, w2, acc1, (fun r => r). left.
        rewrite map_id.
        split; [now apply resolved_stored |]. split; [reflexivity |].
        split; [intros r; apply resolved_by_refl |]. auto.
      - apply bind_returned in H. destruct H as (found & w1 & Hf & H).
        apply await_returned in Hf. destruct Hf as (rs & Hf & ->).
        assert (found = fst (getChannelId api (ch_name c))) as Efound.
        { inversion Hf as [E]. now rewrite E. }
        destruct found as [channelId |].
        + apply bind_returned in H. destruct H as (d & w1 & Hd & H).
          unfold newDate in Hd. inversion Hd; subst d w1. clear Hd.
          apply bind_returned in H. destruct H as ([] & w1 & He & H).
          unfold exec in He. inversion He; subst w1. clear He.
          apply bind_returned in H. destruct H as (acc1 & w2 & Hc & H).
          match type of Hc with
          | processChannel _ _ _ _ _ ?w0 = _ =>
              exists channelId, w0, w2, acc1,
                (fun r => if channel_is (ch_id c) userId r
                          then set_channelId channelId (DateAt (now w)) r
                          else r)
          end.
          left.
          split; [now rewrite (resolved_found api c Eid) |].
          split; [reflexivity |].
          split.
          { intros r. now apply (update_channel_resolved_by api c userId channelId). }
          split; [reflexivity |]. split; [reflexivity |].
          split; [exact Hc | exact H].
        + exists "", w, (sent rs w), acc, (fun r => r). right.
          split; [now rewrite (resolved_found api c Eid) |]. auto. }
    destruct Hstep as (channelId & w1 & w2 & acc1 & g1 &
                       [(Hres & Hch1 & Hg1 & Hv1 & Hc1 & Hrun & Hrest)
                       | (Hres & Hch2 & Hv2 & Hc2 & -> & Hrest)]).
    + destruct (processChannel_returned _ _ _ _ _ _ _ _ Hrun)
        as (aV1 & aC1 & Ha1 & Hb1 & HV1 & HC1 & HCh1 & Hready1 & Hstored1 & Hvals1).
      destruct (IH _ _ _ _ Hrest)
        as (aV2 & aC2 & g2 & Ha2 & Hb2 & HV2 & HC2 & HCh2 & Hg2 & Hcov2 & Hvals2).
      exists (aV1 ++ aV2), (aC1 ++ aC2), (fun r => g2 (g1 r)).
      split; [now rewrite Ha2, Ha1, app_assoc |].
      split; [now rewrite Hb2, Hb1, app_assoc |].
      split; [now rewrite HV2, HV1, Hv1, app_assoc |].
      split; [now rewrite HC2, HC1, Hc1, app_assoc |].
      split; [now rewrite HCh2, HCh1, Hch1, map_map |].
      split; [intros r; apply (resolved_by_step api c rest r (g1 r)); auto |].
      split.
      * intros c0 x [<- | Hin] Hx.
        -- rewrite Hres in Hx. inversion Hx; subst x. split; [exact Hready1 |].
           rewrite HV2. revert Hstored1. apply Forall_impl.
           intros v. apply stored_app.
        -- now apply (Hcov2 c0).
      * rewrite map_app, Hvals1, Hvals2.
        change (listed_videos api fuel (c :: rest))
          with (match resolved api c with
                | Some x => listed api fuel x
                | None => []
                end ++ listed_videos api fuel rest).
        rewrite Hres, flat_map_app. f_equal.
        rewrite HV2. symmetry. now apply flat_map_comment_values_app.
    + destruct (IH _ _ _ _ Hrest)
        as (aV2 & aC2 & g2 & Ha2 & Hb2 & HV2 & HC2 & HCh2 & Hg2 & Hcov2 & Hvals2).
      exists aV2, aC2, g2.
      split; [exact Ha2 |]. split; [exact Hb2 |].
      split; [now rewrite HV2, Hv2 |]. split; [now rewrite HC2, Hc2 |].
      split; [now rewrite HCh2, Hch2 |].
      split; [intros r; now apply resolved_by_weaken |].
      split.
      * intros c0 x [<- | Hin] Hx; [congruence |]. now apply (Hcov2 c0).
      * rewrite Hvals2.
        change (listed_videos api fuel (c :: rest))
          with (match resolved api c with
                | Some x => listed api fuel x
                | None => []
                end ++ listed_videos api fuel rest).
        now rewrite Hres.
Qed.


(** The three ways through one round of the channel loop that returns. *)
Lemma processChannels_cons_returned (api : Api) (fuel : nat) (userId : string)
    (c : ChannelRow) (rest : list ChannelRow) acc w acc' w' :
  processChannels api fuel userId (c :: rest) acc w = (Returned acc', w') ->
  (exists channelId acc1 w2,
      or_null (ch_channelId c) = Some channelId /\
      processChannel api fuel userId channelId acc w = (Returned acc1, w2) /\
      processChannels api fuel userId rest acc1 w2 = (Returned acc', w')) \/
  (or_null (ch_channelId c) = None /\
   fst (getChannelId api (ch_name c)) = None /\
   processChannels api fuel userId rest acc (sent [SearchChannel (ch_name c)] w)
   = (Returned acc', w')) \/
  (exists channelId acc1 w2,
      or_null (ch_channelId c) = None /\
      fst (getChannelId api (ch_name c)) = Some channelId /\
      processChannel api fuel userId channelId acc
        (with_store
           (update_channel (ch_id c) userId channelId (DateAt (now w)) (store w))
           {| store := store w; now := S (now w);
              requests := requests w ++ [SearchChannel (ch_name c)] |})
      = (Returned acc1, w2) /\
      processChannels api fuel userId rest acc1 w2 = (Returned acc', w')).
Proof.
  intros H. cbn [processChannels] in H.
  destruct (or_null (ch_channelId c)) as [channelId |] eqn:Eid.
  - left. apply bind_returned in H. destruct H as (acc1 & w2 & Hc & H).
    now exists channelId, acc1, w2.
  - right. apply bind_returned in H. destruct H as (found & w1 & Hf & H).
    apply await_returned in Hf. destruct Hf as (rs & Hf & ->).
    assert (Eg : getChannelId api (ch_name c) = (found, rs)) by congruence.
    pose proof (getChannelId_requests api (ch_name c)) as Ers.
    rewrite Eg in Ers |- *. cbn [fst snd] in Ers |- *. subst rs. clear Hf.
    destruct found as [channelId |].
    + right. apply bind_returned in H. destruct H as (d & w1 & Hd & H).
      unfold newDate in Hd. inversion Hd; subst d w1. clear Hd.
      apply bind_returned in H. destruct H as ([] & w1 & He & H).
      unfold exec in He. inversion He; subst w1. clear He.
      apply bind_returned in H. destruct H as (acc1 & w2 & Hc & H).
      now exists channelId, acc1, w2.
    + left. auto.
Qed.

Lemma unresolved_resolved_row (api : Api) (c : ChannelRow) (channelId : string) :
  or_null (ch_channelId c) = Some channelId -> unresolved c = false.
Proof.
  intros H. apply or_null_some in H. destruct H as [_ H].
  unfold unresolved. now rewrite H.
Qed.

(** After the channel loop has returned, a row of the user that is
    still without identifier is a row whose search finds nothing. *)
Lemma processChannels_unresolved_left (api : Api) (fuel : nat) (userId : string) :
  forall chs acc w acc' w',
    Forall (fun c => ch_userId c = userId) chs ->
    processChannels api fuel userId chs acc w = (Returned acc', w') ->
    (forall r, In r (channels (store w)) -> ch_userId r = userId ->
               unresolved r = true ->
               In r chs \/ fst (getChannelId api (ch_name r)) = None) ->
    forall r, In r (channels (store w')) -> ch_userId r = userId ->
              unresolved r = true ->
              fst (getChannelId api (ch_name r)) = None.
Proof.
  induction chs as [| c rest IH]; intros acc w acc' w' Hown H Hpend.
  - inversion H; subst. intros r Hin Hu Hr.
    destruct (Hpend r Hin Hu Hr) as [[] | Hnone]. exact Hnone.
  - pose proof (Forall_inv Hown) as Hc. cbn beta in Hc.
    pose proof (Forall_inv_tail Hown) as Hrest.
    destruct (processChannels_cons_returned _ _ _ _ _ _ _ _ _ H)
      as [(channelId & acc1 & w2 & Eid & Hrun & Hgo)
         | [(Eid & Hnone & Hgo)
           | (channelId & acc1 & w2 & Eid & Hfound & Hrun & Hgo)]].
    + destruct (processChannel_returned _ _ _ _ _ _ _ _ Hrun)
        as (_ & _ & _ & _ & _ & _ & Hch & _).
      apply (IH _ _ _ _ Hrest Hgo). rewrite Hch. intros r Hin Hu Hr.
      destruct (Hpend r Hin Hu Hr) as [[<- | Hin'] | Hn]; auto.
      rewrite (unresolved_resolved_row api c channelId Eid) in Hr. discriminate.
    + apply (IH _ _ _ _ Hrest Hgo). cbn. intros r Hin Hu Hr.
      destruct (Hpend r Hin Hu Hr) as [[<- | Hin'] | Hn]; auto.
    + destruct (processChannel_returned _ _ _ _ _ _ _ _ Hrun)
        as (_ & _ & _ & _ & _ & _ & Hch & _).
      apply (IH _ _ _ _ Hrest Hgo). rewrite Hch. cbn. intros r' Hin Hu Hr.
      unfold update_where in Hin. apply in_map_iff in Hin.
      destruct Hin as (r & <- & Hin).
      destruct (channel_is (ch_id c) userId r) eqn:Eis.
      * unfold unresolved in Hr. cbn in Hr.
        apply getChannelId_truthy, String.eqb_neq in Hfound.
        rewrite Hfound in Hr. discriminate.
      * destruct (Hpend r Hin Hu Hr) as [[<- | Hin'] | Hn]; auto.
        unfold channel_is in Eis.
        rewrite Nat.eqb_refl, Hc, String.eqb_refl in Eis. discriminate.
Qed.

Lemma resolved_by_nonempty (api : Api) (chs : list ChannelRow) r r' :
  resolved_by api chs r r' ->
  ch_channelId r <> Some "" -> ch_channelId r' <> Some "".
Proof.
  intros (_ & _ & _ & [H | (c & _ & _ & _ & _ & Ht)]) Hr.
  - now rewrite H.
  - intros E. rewrite E in Ht. discriminate.
Qed.

Lemma unresolved_none (st : Store) (c : ChannelRow) :
  identifiers_nonempty st -> In c (channels st) ->
  unresolved c = true <-> ch_channelId c = None.
Proof.
  intros Hwf Hc. specialize (Hwf c Hc). unfold unresolved.
  destruct (ch_channelId c) as [s |]; cbn; [| tauto].
  destruct (s =? "") eqn:E; cbn.
  - apply String.eqb_eq in E. congruence.
  - split; discriminate.
Qed.


Lemma select_channels_in (userId : string) (st : Store) (c : ChannelRow) :
  In c (select_channels userId st) <-> In c (channels st) /\ ch_userId c = userId.
Proof.
  unfold select_channels. rewrite filter_In. unfold channel_of_user.
  now rewrite String.eqb_eq.
Qed.

(** C8, as stated, fails in its last part: the identifier is kept per
    channel row, not per name. A user who registered "Acme" twice has
    two rows without identifier, and one run searches for "Acme" once
    for each of them. *)
Lemma scrapeVideos_searches_name_twice :
  ~ once_per_name
      (requests (snd (scrapeVideos Sample.catalog 3 (Some "alice")
                        (Sample.start Sample.registered_twice)))).
Proof.
  unfold once_per_name.
  assert (E : search_queries
                (requests (snd (scrapeVideos Sample.catalog 3 (Some "alice")
                                  (Sample.start Sample.registered_twice))))
              = ["Acme"; "Acme"]) by (vm_compute; reflexivity).
  rewrite E. intros H. inversion H as [| q qs Hnotin _]. apply Hnotin. now left.
Qed.

(** C8, amended. Take a run of [scrapeVideos] for a user, with
    whatever outcome. The channel searches the run sends are, in order,
    searches for the names of the user's channel rows whose identifier
    was unset when the run started ([!channel.channelId]: null, or the
    empty string, which the pipeline never stores): one for each such
    row when the run returns, the first ones when an exception ends it.
    So no search is sent for a row whose identifier is persisted. And
    when the run returns, every row of the user whose identifier is
    still unset is one whose search found nothing: a resolution that
    succeeded is not repeated by a later run. *)
Theorem scrapeVideos_searches (api : Api) (fuel : nat) (userId : string)
    (w : World) out w' :
  userId <> "" ->
  scrapeVideos api fuel (Some userId) w = (out, w') ->
  exists rs,
    requests w' = requests w ++ rs /\
    prefix (search_queries rs)
      (map ch_name (filter unresolved (select_channels userId (store w)))) /\
    (forall vs, out = Returned vs ->
       search_queries rs
       = map ch_name (filter unresolved (select_channels userId (store w))) /\
       forall c, In c (select_channels userId (store w')) ->
                 unresolved c = true ->
                 fst (getChannelId api (ch_name c)) = None).
Proof.
  intros Hu H. unfold scrapeVideos in H.
  apply String.eqb_neq in Hu. rewrite Hu in H.
  unfold bind at 1, query at 1 in H.
  destruct (length (select_channels userId (store w)) =? 0)%nat.
  { inversion H; subst. exists []. rewrite app_nil_r.
    split; [reflexivity |]. split; [apply prefix_nil | discriminate]. }
  unfold bind in H.
  destruct (processChannels api fuel userId (select_channels userId (store w))
              ([], []) w) as [[acc | e |] w1] eqn:E;
    destruct (processChannels_searches _ _ _ _ _ _ _ _ E) as (rs & Hrs & Hp & Hr);
    inversion H; subst; exists rs.
  2, 3: split; [exact Hrs |]; split; [exact Hp | discriminate].
  split; [exact Hrs |]. split; [exact Hp |].
  intros vs _. split; [now apply (Hr acc) |].
  intros c Hc Hnone. apply select_channels_in in Hc. destruct Hc as [Hin Huc].
  apply (processChannels_unresolved_left api fuel userId _ _ _ _ _
           (proj2 (Forall_forall _ _)
              (fun c0 H0 => proj2 (proj1 (select_channels_in _ _ _) H0))) E);
    auto.
  intros r Hrin Hur _. left. now apply select_channels_in.
Qed.

(** Of Alice's three channels, "Beta" has its identifier; "Acme" and
    "Nope" are searched for, and "Nope" is not found. *)
Lemma scrapeVideos_searches_witness :
  let run := scrapeVideos Sample.catalog 3 (Some "alice")
               (Sample.start Sample.three_channels) in
  exists rs,
    requests (snd run) = rs /\
    search_queries rs = ["Acme"; "Nope"] /\
    forall c, In c (select_channels "alice" (store (snd run))) ->
              unresolved c = true ->
              fst (getChannelId Sample.catalog (ch_name c)) = None.
Proof.
  intros run.
  assert (Hne : "alice" <> "") by discriminate.
  destruct (scrapeVideos_searches Sample.catalog 3 "alice"
              (Sample.start Sample.three_channels) (fst run) (snd run)
              Hne (surjective_pairing run)) as (rs & Hrs & _ & Hret).
  assert (Hout : fst run = Returned (videos (store (snd run))))
    by (vm_compute; reflexivity).
  destruct (Hret _ Hout) as (Hq & Hleft).
  exists rs. split; [exact Hrs |]. split; [exact Hq | exact Hleft].
Defined.

(* ------------------------------------------------------------------ *)
(** ** Channel identifiers in the store are never empty *)

(** The store with no rows has no empty identifier, and none of the
    actions that write channel rows brings one in: a new row has no
    identifier, a removal only drops rows, and the ingestion stores
    what [getChannelId] found, which is not empty. *)
Lemma identifiers_nonempty_kept (api : Api) (fuel : nat) (session : option string) :
  identifiers_nonempty Db.empty /\
  (forall name w, identifiers_nonempty (store w) ->
     identifiers_nonempty (store (snd (addChannelForUser session name w)))) /\
  (forall id w, identifiers_nonempty (store w) ->
     identifiers_nonempty (store (snd (removeChannelForUser session id w)))) /\
  (forall w vs w', identifiers_nonempty (store w) ->
     scrapeVideos api fuel session w = (Returned vs, w') ->
     identifiers_nonempty (store w')).
Proof.
  split; [intros c [] |]. split; [| split].
  - intros name w Hwf. unfold addChannelForUser, authenticated.
    destruct session as [u |]; [| exact Hwf].
    destruct (u =? ""); [exact Hwf |].
    cbn. intros c Hc. apply in_app_or in Hc.
    destruct Hc as [Hc | [<- | []]]; [now apply Hwf | discriminate].
  - intros id w Hwf. unfold removeChannelForUser, authenticated.
    destruct session as [u |]; [| exact Hwf].
    destruct (u =? ""); [exact Hwf |].
    cbn. intros c Hc. unfold delete_where in Hc. apply filter_In in Hc.
    now apply Hwf.
  - intros w vs w' Hwf H. unfold scrapeVideos in H.
    destruct session as [u |]; [| discriminate H].
    destruct (u =? ""); [discriminate H |].
    unfold bind at 1, query at 1 in H.
    destruct (length (select_channels u (store w)) =? 0)%nat; [discriminate H |].
    apply bind_returned in H. destruct H as (r & w1 & Hrun & Hret).
    inversion Hret; subst. clear Hret.
    destruct (processChannels_returned _ _ _ _ _ _ _ _ Hrun)
      as (_ & _ & g & _ & _ & _ & _ & Hch & Hg & _).
    intros c Hc. rewrite Hch in Hc. apply in_map_iff in Hc.
    destruct Hc as (r0 & <- & Hr0).
    apply (resolved_by_nonempty api _ r0 (g r0) (Hg r0)). now apply Hwf.
Qed.

(* ------------------------------------------------------------------ *)
(** ** What a run that throws leaves behind *)

Lemma steady_refl (w : World) : steady w w.
Proof. split; reflexivity. Qed.

Lemma steady_trans (w1 w2 w3 : World) : steady w1 w2 -> steady w2 w3 -> steady w1 w3.
Proof. intros [A1 A2] [B1 B2]. split; congruence. Qed.





Lemma insertComments_steady (videoId : RowId) (userId : string) :
  forall cs acc, respects steady (insertComments videoId userId cs acc).
Proof.
  induction cs as [| c rest IH]; intros acc; cbn [insertComments].
  - apply respects_ret, steady_refl.
  - apply (respects_bind steady_trans); [apply respects_eval, steady_refl |].
    intros n. apply (respects_bind steady_trans); [| intros row; apply IH].
    intros w out w' H. unfold inserting, insert_comment in H.
    inversion H; subst. split; reflexivity.
Qed.



(** One round of the channel loop, told by the identifier the row
    resolves to: some writes to the channel rows, then the work on the
    channel, if there is one. *)
Lemma processChannels_cons (api : Api) (fuel : nat) (userId : string)
    (c : ChannelRow) (rest : list ChannelRow) acc w :
  exists g wa,
    channels (store wa) = map g (channels (store w)) /\
    (forall r, resolved_by api [c] r (g r)) /\
    videos (store wa) = videos (store w) /\
    processChannels api fuel userId (c :: rest) acc w
    = match resolved api c with
      | Some channelId =>
          bind (processChannel api fuel userId channelId acc)
            (fun acc' => processChannels api fuel userId rest acc') wa
      | None => processChannels api fuel userId rest acc wa
      end.
Proof.
  cbn [processChannels].
  destruct (or_null (ch_channelId c)) as [channelId |] eqn:Eid.
  - exists (fun r => r), w. rewrite map_id, (resolved_stored api c channelId Eid).
    split; [reflexivity |]. split; [intros r; apply resolved_by_refl |].
    split; reflexivity.
  - rewrite (resolved_found api c Eid).
    pose proof (update_channel_resolved_by api c userId) as Hupd.
    destruct (getChannelId api (ch_name c)) as [found rs] eqn:Eg.
    cbn [fst] in Hupd |- *. unfold bind at 1. cbn [await].
    destruct found as [channelId |].
    + unfold bind at 1. cbn [newDate]. unfold bind at 1. cbn [exec].
      eexists (fun r => if channel_is (ch_id c) userId r
                        then set_channelId channelId (DateAt (now w)) r
                        else r), _.
      split; [| split; [| split; [| reflexivity]]].
      * reflexivity.
      * intros r. now apply Hupd.
      * reflexivity.
    + exists (fun r => r), (sent rs w). rewrite map_id.
      split; [reflexivity |]. split; [intros r; apply resolved_by_refl |].
      split; reflexivity.
Qed.

Lemma resolved_by_trans (api : Api) (chs : list ChannelRow) r r1 r2 :
  resolved_by api chs r r1 -> resolved_by api chs r1 r2 -> resolved_by api chs r r2.
Proof.
  intros (A1 & A2 & A3 & A4) (B1 & B2 & B3 & B4).
  repeat split; try congruence.
  destruct B4 as [B4 | (c0 & Hin & Hid & Hu & Hc & Ht)].
  - destruct A4 as [A4 | (c0 & Hin & Hid & Hu & Hc & Ht)].
    + left. congruence.
    + right. exists c0. repeat split; auto; [congruence | now rewrite B4].
  - right. exists c0. repeat split; auto. congruence.
Qed.










(* ------------------------------------------------------------------ *)
(** ** Running the ingestion twice *)













(* ------------------------------------------------------------------ *)
(** ** Further properties of the helpers *)

(** X1. [getChannelId] sends exactly one search and never throws: it
    returns [null] when the search fails and when it has no hit; and an
    identifier it returns is the channel identifier of the first hit
    and is not the empty string. *)
Theorem getChannelId_found (api : Api) (name : string) :
  snd (getChannelId api name) = [SearchChannel name] /\
  (search_channel api name = Failed -> fst (getChannelId api name) = None) /\
  (forall data,
      search_channel api name = Ok data ->
      sl_items data = None \/ sl_items data = Some [] ->
      fst (getChannelId api name) = None) /\
  (forall channelId,
      fst (getChannelId api name) = Some channelId ->
      channelId <> "" /\
      exists data item rest rid,
        search_channel api name = Ok data /\
        sl_items data = Some (item :: rest) /\
        sr_id item = Some rid /\
        rid_channelId rid = Some channelId).
Proof.
  split; [reflexivity |]. split; [| split].
  - intros H. unfold getChannelId. now rewrite H.
  - intros data H [Hi | Hi]; unfold getChannelId; now rewrite H, Hi.
  - intros channelId H. split; [now apply (getChannelId_truthy api name) |].
    unfold getChannelId in H. cbn [fst] in H.
    destruct (search_channel api name) as [data |]; [| discriminate H].
    destruct (sl_items data) as [[| item rest] |] eqn:Ei; try discriminate H.
    destruct (sr_id item) as [rid |] eqn:Er; [| discriminate H].
    apply or_null_some in H. destruct H as [H _].
    now exists data, item, rest, rid.
Qed.

(** "Acme" is found on the catalog, "Nope" has no hit, and an upstream
    that is down finds nothing. *)
Lemma getChannelId_found_witness :
  fst (getChannelId Sample.down "Acme") = None /\
  fst (getChannelId Sample.catalog "Nope") = None /\
  "UCX1" <> "".
Proof.
  split; [| split].
  - apply (getChannelId_found Sample.down "Acme"). reflexivity.
  - destruct (getChannelId_found Sample.catalog "Nope") as (_ & _ & H & _).
    apply (H {| sl_items := Some []; sl_nextPageToken := None |}); auto.
  - destruct (getChannelId_found Sample.catalog "Acme") as (_ & _ & _ & H).
    apply (H "UCX1"). reflexivity.
Defined.

(** X2. [getBestThumbnail] throws exactly when none of the five
    variants is present; otherwise it returns the URL of the first one
    present in the order maxres, standard, high, medium, default,
    whether or not the default variant is there. *)
Theorem getBestThumbnail_throws (t : ThumbnailDetails) :
  (first_present (by_priority t) = None <->
   exists e, getBestThumbnail t = Abrupt e) /\
  (forall best,
      first_present (by_priority t) = Some best ->
      getBestThumbnail t = Normal (url best)).
Proof.
  split; [| intros best; apply getBestThumbnail_first_present].
  unfold by_priority, getBestThumbnail. cbn [first_present].
  destruct (th_maxres t), (th_standard t), (th_high t), (th_medium t),
    (th_default t);
    (split; [intros H; try discriminate H; eauto
            | intros [e H]; try discriminate H; reflexivity]).
Qed.

Lemma getBestThumbnail_throws_witness :
  getBestThumbnail More.only_high = Normal (Some "h.jpg").
Proof.
  exact (proj2 (getBestThumbnail_throws More.only_high)
           (Sample.thumb "h.jpg") eq_refl).
Defined.

Lemma search_video_ids_nonempty (data : SearchListResponse) :
  Forall (fun v => v <> "") (search_video_ids data).
Proof.
  unfold search_video_ids. destruct (sl_items data) as [items |]; [| constructor].
  induction items as [| item items IH]; [constructor |].
  cbn [flat_map]. apply Forall_app. split; [| exact IH].
  destruct (sr_id item) as [rid |]; [| constructor].
  destruct (rid_videoId rid) as [v |]; [| constructor].
  destruct (v =? "") eqn:E; constructor; [| constructor].
  now apply String.eqb_neq.
Qed.

Lemma fetchAllVideosLoop_ids (api : Api) (channelId : string) :
  forall fuel acc tok ids rs,
    Forall (fun v => v <> "") acc ->
    fetchAllVideosLoop api fuel channelId acc tok = Some (ids, rs) ->
    Forall (fun v => v <> "") ids /\
    (exists rest, rs = SearchVideos channelId tok :: rest) /\
    Forall (fun r => exists t, r = SearchVideos channelId t) rs /\
    prefix acc ids.
Proof.
  induction fuel as [| fuel IH]; intros acc tok ids rs Hacc H; [discriminate H |].
  cbn [fetchAllVideosLoop] in H.
  destruct (search_videos api channelId tok) as [data |].
  - assert (Hacc' : Forall (fun v => v <> "") (acc ++ search_video_ids data)).
    { apply Forall_app. split; [exact Hacc | apply search_video_ids_nonempty]. }
    destruct (truthy (sl_nextPageToken data)).
    + destruct (fetchAllVideosLoop api fuel channelId
                  (acc ++ search_video_ids data) (sl_nextPageToken data))
        as [[r0 rs0] |] eqn:E; [| discriminate H].
      inversion H; subst. clear H.
      destruct (IH _ _ _ _ Hacc' E) as (Hids & _ & Hrs & (l3 & Hpre)).
      split; [exact Hids |]. split; [eauto |]. split.
      * constructor; [eauto | exact Hrs].
      * exists (search_video_ids data ++ l3). now rewrite Hpre, app_assoc.
    + inversion H; subst. split; [exact Hacc' |]. split; [eauto |]. split.
      * constructor; [eauto | constructor].
      * now exists (search_video_ids data).
  - inversion H; subst. split; [exact Hacc |]. split; [eauto |]. split.
    + constructor; [eauto | constructor].
    + exists []. now rewrite app_nil_r.
Qed.

(** X3. Whatever the upstream answers, the identifiers that
    [fetchAllVideosForChannel] returns are non-empty strings (hits
    without a video identifier are dropped), and all it sends are video
    searches for this channel, the first of them without page token. *)
Theorem fetchAllVideosForChannel_ids (api : Api) (fuel : nat) (channelId : string)
    (ids : list string) (rs : list Request) :
  fetchAllVideosForChannel api fuel channelId = Some (ids, rs) ->
  Forall (fun v => v <> "") ids /\
  (exists rest, rs = SearchVideos channelId None :: rest) /\
  Forall (fun r => exists t, r = SearchVideos channelId t) rs.
Proof.
  intros H.
  destruct (fetchAllVideosLoop_ids api channelId fuel [] None ids rs
              (Forall_nil _) H) as (H1 & H2 & H3 & _).
  auto.
Qed.

Lemma fetchAllVideosForChannel_ids_witness :
  Forall (fun v => v <> "") ["v1"; "v2"; "v3"].
Proof.
  apply (fetchAllVideosForChannel_ids Sample.catalog 2 "UCX1" _
           [SearchVideos "UCX1" None; SearchVideos "UCX1" (Some "p2")]).
  reflexivity.
Defined.

Lemma fetchVideoCommentsLoop_terminates (api : Api) (videoId : string) :
  (forall tok data cs,
      commentThreads_list api videoId tok = Ok data ->
      thread_comments data = Normal cs ->
      truthy (ctl_nextPageToken data) = true ->
      cs <> []) ->
  forall fuel acc tok,
    length acc < 100 ->
    100 <= length acc + fuel ->
    exists cs rs,
      fetchVideoCommentsLoop api fuel videoId acc tok = Some (cs, rs) /\
      length rs + length acc <= 100.
Proof.
  intros Hpages. induction fuel as [| fuel IH]; intros acc tok Hacc Hfuel; [lia |].
  cbn [fetchVideoCommentsLoop].
  destruct (commentThreads_list api videoId tok) as [data |] eqn:Ecall.
  2: { eexists _, _. split; [reflexivity | cbn; lia]. }
  destruct (thread_comments data) as [page | e] eqn:Epage.
  2: { eexists _, _. split; [reflexivity | cbn; lia]. }
  destruct (Nat.leb_spec 100 (length (acc ++ page))) as [Hcap | Hless].
  { eexists _, _. split; [reflexivity | cbn; lia]. }
  destruct (truthy (ctl_nextPageToken data)) eqn:Etok.
  2: { eexists _, _. split; [reflexivity | cbn; lia]. }
  pose proof (Hpages tok data page Ecall Epage Etok) as Hne.
  assert (Hgrow : length acc < length (acc ++ page)).
  { rewrite length_app. destruct page; [congruence | cbn; lia]. }
  destruct (IH (acc ++ page) (ctl_nextPageToken data) Hless) as (cs & rs & Hrun & Hlen);
    [lia |].
  rewrite Hrun. exists cs, (CommentThreadsList videoId tok :: rs).
  split; [reflexivity | cbn; lia].
Qed.

(** X4. When every page that carries a continuation token holds at
    least one comment, [fetchVideoComments] ends: with room for 100
    iterations it returns, and it has sent at most 100 requests. *)
Theorem fetchVideoComments_terminates (api : Api) (videoId : string) (fuel : nat) :
  (forall tok data cs,
      commentThreads_list api videoId tok = Ok data ->
      thread_comments data = Normal cs ->
      truthy (ctl_nextPageToken data) = true ->
      cs <> []) ->
  100 <= fuel ->
  exists cs rs,
    fetchVideoComments api fuel videoId = Some (cs, rs) /\
    length rs <= 100 /\ length cs <= 100.
Proof.
  intros Hpages Hfuel.
  destruct (fetchVideoCommentsLoop_terminates api videoId Hpages fuel [] None)
    as (cs & rs & Hrun & Hlen); [cbn; lia | cbn; lia |].
  exists cs, rs. split; [exact Hrun |]. split; [cbn in Hlen; lia |].
  apply (fetchVideoCommentsLoop_bound api videoId fuel [] None cs rs);
    [cbn; lia | exact Hrun].
Qed.

(** On the catalog every page of "v1" that continues holds comments. *)
Lemma fetchVideoComments_terminates_witness :
  exists cs rs,
    fetchVideoComments Sample.catalog 100 "v1" = Some (cs, rs) /\
    length rs <= 100 /\ length cs <= 100.
Proof.
  apply (fetchVideoComments_terminates Sample.catalog "v1" 100); [| lia].
  intros tok data cs Hcall Hcs Htok. destruct tok as [t |]; cbn in Hcall.
  - inversion Hcall; subst data. discriminate Htok.
  - inversion Hcall; subst data. cbn in Hcs. inversion Hcs. discriminate.
Defined.

(* ------------------------------------------------------------------ *)
(** ** Channel registration and the two queries *)

Lemma select_channels_app (userId : string) (st : Store) (row : ChannelRow) cs :
  channels st = cs ++ [row] ->
  select_channels userId st
  = filter (channel_of_user userId) cs
    ++ (if ch_userId row =? userId then [row] else []).
Proof.
  intros H. unfold select_channels. rewrite H, filter_app. cbn.
  unfold channel_of_user. now destruct (ch_userId row =? userId).
Qed.

(** X5. For a signed-in user, [addChannelForUser] returns a new row
    with the given name, owned by the user and without upstream
    identifier; [getChannelsForUser] then lists it last, after the rows
    it listed before. The channel lists of other users, the videos and
    the comments are as they were. *)
Theorem addChannelForUser_listed (userId name : string) (w : World) :
  userId <> "" ->
  exists row w',
    addChannelForUser (Some userId) name w = (Returned row, w') /\
    ch_name row = name /\ ch_userId row = userId /\ ch_channelId row = None /\
    getChannelsForUser (Some userId) w'
    = (Returned (select_channels userId (store w) ++ [row]), w') /\
    (forall other, other <> userId ->
       select_channels other (store w') = select_channels other (store w)) /\
    videos (store w') = videos (store w) /\
    comments (store w') = comments (store w).
Proof.
  intros Hu. apply String.eqb_neq in Hu.
  unfold addChannelForUser, getChannelsForUser, authenticated. rewrite Hu.
  set (row := new_channel_row (next_id (store w)) (now w) name userId).
  set (st' := snd (insert_channel name userId (now w) (store w))).
  assert (Hch : channels st' = channels (store w) ++ [row]) by reflexivity.
  exists row, (with_store st' w).
  split; [reflexivity |]. do 3 (split; [reflexivity |]).
  split; [| split; [| split; reflexivity]].
  - unfold query. cbn [store with_store].
    rewrite (select_channels_app userId st' row _ Hch).
    cbn. now rewrite String.eqb_refl.
  - intros other Ho. cbn [store with_store].
    rewrite (select_channels_app other st' row _ Hch).
    cbn. apply not_eq_sym, String.eqb_neq in Ho. rewrite Ho.
    now rewrite app_nil_r.
Qed.

(** Alice registers a second channel. *)
Lemma addChannelForUser_listed_witness :
  exists row w',
    addChannelForUser (Some "alice") "Beta" (Sample.start More.two_users)
    = (Returned row, w') /\
    fst (getChannelsForUser (Some "alice") w')
    = Returned [Sample.channel_row 0 "Acme" None "alice"; row] /\
    select_channels "bob" (store w')
    = [Sample.channel_row 1 "Acme" (Some "UCX1") "bob"].
Proof.
  assert (Hne : "alice" <> "") by discriminate.
  assert (Hbob : "bob" <> "alice") by discriminate.
  destruct (addChannelForUser_listed "alice" "Beta" (Sample.start More.two_users) Hne)
    as (row & w' & Hadd & _ & _ & _ & Hlist & Hother & _).
  exists row, w'. split; [exact Hadd |]. split.
  - now rewrite Hlist.
  - now rewrite (Hother "bob" Hbob).
Defined.

Lemma filter_delete_own (id : RowId) (userId : string) (cs : list ChannelRow) :
  filter (channel_of_user userId) (delete_where (channel_is id userId) cs)
  = filter (fun c => negb (ch_id c =? id)%nat) (filter (channel_of_user userId) cs).
Proof.
  unfold delete_where, channel_is, channel_of_user.
  induction cs as [| c cs IH]; [reflexivity |].
  cbn [filter]. destruct (ch_userId c =? userId) eqn:Eu;
    destruct (ch_id c =? id)%nat eqn:Ei; cbn [negb andb filter];
    rewrite ?Eu, ?Ei; cbn [negb]; now rewrite IH.
Qed.

Lemma filter_delete_other (id : RowId) (userId other : string) (cs : list ChannelRow) :
  other <> userId ->
  filter (channel_of_user other) (delete_where (channel_is id userId) cs)
  = filter (channel_of_user other) cs.
Proof.
  intros Ho. unfold delete_where, channel_is, channel_of_user.
  induction cs as [| c cs IH]; [reflexivity |].
  cbn [filter]. destruct (ch_userId c =? other) eqn:Eo.
  - assert (Eu : (ch_userId c =? userId) = false).
    { apply String.eqb_neq. apply String.eqb_eq in Eo. congruence. }
    rewrite Eu, andb_false_r. cbn [negb filter]. now rewrite Eo, IH.
  - destruct (negb ((ch_id c =? id)%nat && (ch_userId c =? userId)));
      cbn [filter]; rewrite ?Eo; exact IH.
Qed.

(** X6. For a signed-in user, [removeChannelForUser] removes from the
    user's channel list the rows with the given key and nothing else:
    a row of another user stays even when it has that key, and the
    videos and comments ingested for the channel stay in the store. *)
Theorem removeChannelForUser_own (userId : string) (id : RowId) (w : World) :
  userId <> "" ->
  exists w',
    removeChannelForUser (Some userId) id w = (Returned tt, w') /\
    select_channels userId (store w')
    = filter (fun c => negb (ch_id c =? id)%nat) (select_channels userId (store w)) /\
    (forall other, other <> userId ->
       select_channels other (store w') = select_channels other (store w)) /\
    videos (store w') = videos (store w) /\
    comments (store w') = comments (store w).
Proof.
  intros Hu. apply String.eqb_neq in Hu.
  unfold removeChannelForUser, authenticated. rewrite Hu.
  eexists. split; [reflexivity |]. cbn.
  split; [apply filter_delete_own |]. split; [| split; reflexivity].
  intros other Ho. now apply filter_delete_other.
Qed.

(** Bob removes the channel with key 0, which is Alice's: nothing
    happens. Alice removes it: her list is empty, her video stays. *)
Lemma removeChannelForUser_own_witness :
  select_channels "alice"
    (store (snd (removeChannelForUser (Some "bob") 0 (Sample.start More.two_users))))
  = [Sample.channel_row 0 "Acme" None "alice"] /\
  (let w' := snd (removeChannelForUser (Some "alice") 0
                    (Sample.start More.two_users)) in
   select_channels "alice" (store w') = [] /\
   videos (store w') = [Sample.video_row 2 "v1" "alice"]).
Proof.
  assert (Ha : "alice" <> "") by discriminate.
  assert (Hb : "bob" <> "") by discriminate.
  assert (Hab : "alice" <> "bob") by discriminate.
  split.
  - destruct (removeChannelForUser_own "bob" 0 (Sample.start More.two_users) Hb)
      as (w' & Hrun & _ & Hother & _).
    rewrite Hrun. cbn [snd]. now rewrite (Hother "alice" Hab).
  - destruct (removeChannelForUser_own "alice" 0 (Sample.start More.two_users) Ha)
      as (w' & Hrun & Hown & _ & Hv & _).
    rewrite Hrun. cbn [snd]. split; [now rewrite Hown | now rewrite Hv].
Defined.

(** X7. Registering a channel and removing it again by the key that
    was returned restores the channel table, provided the keys in the
    table are below the next key to be generated. *)
Theorem add_then_remove (userId name : string) (w : World) row w1 :
  userId <> "" ->
  channel_keys_fresh (store w) ->
  addChannelForUser (Some userId) name w = (Returned row, w1) ->
  exists w2,
    removeChannelForUser (Some userId) (ch_id row) w1 = (Returned tt, w2) /\
    channels (store w2) = channels (store w) /\
    videos (store w2) = videos (store w) /\
    comments (store w2) = comments (store w).
Proof.
  intros Hu Hfresh Hadd. apply String.eqb_neq in Hu.
  unfold addChannelForUser, removeChannelForUser, authenticated in *.
  rewrite Hu in *. unfold inserting, insert_channel in Hadd.
  inversion Hadd; subst row w1. clear Hadd.
  eexists. split; [reflexivity |]. cbn. split; [| split; reflexivity].
  unfold delete_where. rewrite filter_app. cbn.
  unfold channel_is at 2. cbn. rewrite Nat.eqb_refl, String.eqb_refl. cbn.
  rewrite app_nil_r. unfold channel_keys_fresh in Hfresh.
  induction (channels (store w)) as [| c cs IH]; [reflexivity |].
  inversion Hfresh as [| c0 cs0 Hc Hcs]; subst. cbn [filter].
  unfold channel_is at 1.
  assert (E : (ch_id c =? next_id (store w))%nat = false)
    by (apply Nat.eqb_neq; lia).
  rewrite E. cbn. f_equal. apply IH, Hcs.
Qed.

Lemma add_then_remove_witness :
  exists row w1 w2,
    addChannelForUser (Some "alice") "Beta" (Sample.start More.two_users)
    = (Returned row, w1) /\
    removeChannelForUser (Some "alice") (ch_id row) w1 = (Returned tt, w2) /\
    channels (store w2) = channels More.two_users.
Proof.
  assert (Ha : "alice" <> "") by discriminate.
  assert (Hfresh : channel_keys_fresh (store (Sample.start More.two_users))).
  { repeat constructor. }
  eexists _, _. 
  destruct (add_then_remove "alice" "Beta" (Sample.start More.two_users) _ _
              Ha Hfresh eq_refl) as (w2 & Hrm & Hch & _).
  exists w2. split; [reflexivity |]. split; [exact Hrm | exact Hch].
Defined.

(** X8. The two queries are read-only and scoped to the caller: for a
    signed-in user they return exactly the rows of the store owned by
    that user, in the order of the store, and leave the world as it
    is; without a signed-in user they throw, like the two mutations
    and the refresh, and nothing is read, written or sent. *)
Theorem queries_scoped (api : Api) (session : option string) (w : World) :
  (forall userId,
      session = Some userId -> userId <> "" ->
      exists vs cs,
        getVideosForUser session w = (Returned vs, w) /\
        getChannelsForUser session w = (Returned cs, w) /\
        (forall r, In r vs <-> In r (videos (store w)) /\ vr_userId r = userId) /\
        (forall c, In c cs <-> In c (channels (store w)) /\ ch_userId c = userId)) /\
  (truthy session = false ->
   forall name id,
     let denied {A : Type} : outcome A * World :=
       (Threw (Error "User not authenticated"), w) in
     getVideosForUser session w = denied /\
     getChannelsForUser session w = denied /\
     addChannelForUser session name w = denied /\
     removeChannelForUser session id w = denied /\
     updateVideoStatistics api session w = denied).
Proof.
  split.
  - intros userId -> Hu. apply String.eqb_neq in Hu.
    unfold getVideosForUser, getChannelsForUser, authenticated. rewrite Hu.
    eexists _, _. split; [reflexivity |]. split; [reflexivity |].
    split.
    + intros r. unfold select_videos. rewrite filter_In.
      unfold video_of_user. now rewrite String.eqb_eq.
    + intros c. apply select_channels_in.
  - intros Hs name id.
    assert (forall A (k : string -> M A),
               authenticated session k w
               = (Threw (Error "User not authenticated"), w)) as Hden.
    { intros A k. unfold authenticated. destruct session as [u |]; [| reflexivity].
      cbn in Hs. destruct (u =? ""); [reflexivity | discriminate Hs]. }
    cbv zeta. unfold getVideosForUser, getChannelsForUser, addChannelForUser,
      removeChannelForUser. rewrite !Hden. repeat split.
    unfold updateVideoStatistics. destruct session as [u |]; [| reflexivity].
    cbn in Hs. destruct (u =? ""); [reflexivity | discriminate Hs].
Qed.

Lemma queries_scoped_witness :
  fst (getVideosForUser (Some "bob") (Sample.start More.two_users)) = Returned [] /\
  getChannelsForUser None (Sample.start More.two_users)
  = (Threw (Error "User not authenticated"), Sample.start More.two_users).
Proof.
  destruct (queries_scoped Sample.catalog (Some "bob") (Sample.start More.two_users))
    as [Hb _].
  destruct (queries_scoped Sample.catalog None (Sample.start More.two_users))
    as [_ Hn].
  split.
  - destruct (Hb "bob" eq_refl) as (vs & cs & Hv & _ & Hin & _); [discriminate |].
    rewrite Hv. cbn [fst]. f_equal.
    destruct vs as [| r vs]; [reflexivity |].
    destruct (proj1 (Hin r) (or_introl eq_refl)) as [[<- | []] Ho].
    discriminate Ho.
  - apply (Hn eq_refl "x" 0).
Defined.

(* ------------------------------------------------------------------ *)
(** ** What a refresh that returns has written *)

Lemma same_but_stats_refl (r : VideoRow) : same_but_stats r r.
Proof. repeat split. Qed.

Lemma same_but_stats_trans (r1 r2 r3 : VideoRow) :
  same_but_stats r1 r2 -> same_but_stats r2 r3 -> same_but_stats r1 r3.
Proof. unfold same_but_stats. intuition congruence. Qed.

Lemma upstream_counters_details (api : Api) (videoId : string) d ds st :
  fst (fetchVideoDetails api [videoId]) = d :: ds ->
  yv_statistics d = Some st ->
  upstream_counters api videoId
  = Some (counter (viewCount st), counter (likeCount st),
          counter (dislikeCount st), counter (commentCount st)) /\
  has_details api videoId = true.
Proof.
  intros Hd Hst. unfold upstream_counters, has_details. now rewrite Hd, Hst.
Qed.

(** The refresh loop, when it returns: one request per row, in order;
    every row of the table keeps what a refresh does not write; a row
    whose upstream identifier is that of one of the rows refreshed, and
    has a record upstream, carries the counters of that record; every
    other row is as it was. *)
Lemma refreshVideos_returned (api : Api) :
  forall vs w w',
    refreshVideos api vs w = (Returned tt, w') ->
    requests w' = requests w ++ map (fun v => VideosList [vr_videoId v]) vs /\
    exists f,
      videos (store w') = map f (videos (store w)) /\
      forall r,
        same_but_stats r (f r) /\
        if existsb (fun v => vr_videoId v =? vr_videoId r) vs
           && has_details api (vr_videoId r)
        then upstream_counters api (vr_videoId r) = Some (counters_of (f r))
        else f r = r.
Proof.
  induction vs as [| v rest IH]; intros w w' H.
  - inversion H; subst. split; [now rewrite app_nil_r |].
    exists (fun r => r). rewrite map_id. split; [reflexivity |].
    intros r. split; [apply same_but_stats_refl | reflexivity].
  - cbn [refreshVideos] in H.
    apply bind_returned in H. destruct H as (details & w1 & Hd & H).
    apply await_returned in Hd. destruct Hd as (rs & Hd & ->).
    assert (Edet : details = fst (fetchVideoDetails api [vr_videoId v]) /\
                   rs = [VideosList [vr_videoId v]]).
    { assert (E : fetchVideoDetails api [vr_videoId v] = (details, rs))
        by congruence.
      split; [now rewrite E |].
      change rs with (snd (details, rs)). now rewrite <- E. }
    destruct Edet as [Edet ->]. clear Hd.
    apply bind_returned in H. destruct H as ([] & w2 & Hstep & H).
    destruct (IH _ _ H) as (Hreq & f2 & Hf2 & HP). clear IH H.
    destruct details as [| d ds].
    + (* no record: the row is passed over *)
      inversion Hstep; subst w2. clear Hstep.
      split; [cbn in Hreq |- *; now rewrite Hreq, <- app_assoc |].
      exists f2. split; [exact Hf2 |]. intros r.
      destruct (HP r) as [Hsame Hcond]. split; [exact Hsame |].
      cbn [existsb]. destruct (vr_videoId v =? vr_videoId r) eqn:E.
      * apply String.eqb_eq in E. cbn [orb].
        assert (Hno : has_details api (vr_videoId r) = false).
        { unfold has_details. now rewrite <- E, <- Edet. }
        rewrite Hno, andb_false_r in Hcond |- *. exact Hcond.
      * exact Hcond.
    + (* a record: its counters are written *)
      unfold statsUpdateOf in Hstep.
      destruct (yv_statistics d) as [st |] eqn:Est.
      2: { apply bind_returned in Hstep. destruct Hstep as (u & w3 & Hu & _).
           discriminate Hu. }
      apply bind_returned in Hstep. destruct Hstep as (u & w3 & Hu & Hex).
      apply bind_returned in Hu. destruct Hu as (date & w4 & Hdate & Hu).
      unfold newDate in Hdate. inversion Hdate; subst date w4. clear Hdate.
      inversion Hu; subst u w3. clear Hu.
      unfold exec in Hex. inversion Hex; subst w2. clear Hex.
      destruct (upstream_counters_details api (vr_videoId v) d ds st
                  (eq_sym Edet) Est) as [Hup Hhas].
      split; [cbn in Hreq |- *; now rewrite Hreq, <- app_assoc |].
      cbn in Hf2. unfold update_where in Hf2. rewrite map_map in Hf2.
      eexists. split; [exact Hf2 |]. intros r. cbn beta.
      unfold video_has_id. rewrite String.eqb_sym.
      cbn [existsb].
      destruct (vr_videoId v =? vr_videoId r) eqn:E.
      * apply String.eqb_eq in E. cbn [orb].
        match goal with |- context [f2 ?x] => set (r1 := x) end.
        destruct (HP r1) as [Hsame Hcond]. split.
        { apply (same_but_stats_trans r r1); [repeat split | exact Hsame]. }
        assert (Hid : vr_videoId r1 = vr_videoId r) by reflexivity.
        rewrite Hid in Hcond. rewrite <- E, Hhas in Hcond |- *.
        rewrite andb_true_r in Hcond. cbn [andb].
        destruct (existsb (fun v0 => vr_videoId v0 =? vr_videoId v) rest).
        -- exact Hcond.
        -- rewrite Hcond, Hup. reflexivity.
      * cbn [orb]. exact (HP r).
Qed.



(** X10. A refresh that returns has sent one detail request for each
    video row of the user, in the order of the store, each for the one
    upstream identifier of the row, and no other request. *)
Theorem updateVideoStatistics_requests (api : Api) (userId : string) (w w' : World) :
  userId <> "" ->
  updateVideoStatistics api (Some userId) w = (Returned tt, w') ->
  requests w'
  = requests w
    ++ map (fun v => VideosList [vr_videoId v]) (select_videos userId (store w)).
Proof.
  intros Hu H. apply String.eqb_neq in Hu. unfold updateVideoStatistics in H.
  rewrite Hu in H. unfold bind, query in H.
  apply (refreshVideos_returned api _ _ _ H).
Qed.

Lemma updateVideoStatistics_requests_witness :
  requests (snd (updateVideoStatistics Sample.gone (Some "alice")
                   (Sample.start Sample.two_videos)))
  = [VideosList ["v1"]; VideosList ["v2"]].
Proof.
  assert (Hne : "alice" <> "") by discriminate.
  apply (updateVideoStatistics_requests Sample.gone "alice"
           (Sample.start Sample.two_videos) _ Hne).
  vm_compute. reflexivity.
Defined.

(* ------------------------------------------------------------------ *)
(** ** Further properties of the ingestion *)

Lemma processChannels_nothing_found (api : Api) (fuel : nat) (userId : string) :
  forall chs acc w,
    (forall c, In c chs -> resolved api c = None) ->
    exists w',
      processChannels api fuel userId chs acc w = (Returned acc, w') /\
      store w' = store w /\ now w' = now w /\
      requests w' = requests w ++ map (fun c => SearchChannel (ch_name c)) chs.
Proof.
  induction chs as [| c rest IH]; intros acc w Hnone.
  - exists w. cbn. now rewrite app_nil_r.
  - pose proof (Hnone c (or_introl eq_refl)) as Hc. unfold resolved in Hc.
    cbn [processChannels].
    destruct (or_null (ch_channelId c)) as [x |]; [discriminate Hc |].
    unfold bind at 1. cbn [await].
    destruct (getChannelId api (ch_name c)) as [found rs] eqn:Eg.
    pose proof (getChannelId_requests api (ch_name c)) as Hrs.
    rewrite Eg in Hrs. cbn [fst snd] in Hc, Hrs. subst found rs.
    destruct (IH acc (sent [SearchChannel (ch_name c)] w)) as (w' & Hrun & Hs & Hn & Hr).
    { intros c0 Hin. apply Hnone. now right. }
    exists w'. split; [exact Hrun |]. split; [exact Hs |]. split; [exact Hn |].
    rewrite Hr. cbn. now rewrite <- app_assoc.
Qed.

(** X11. When none of the user's channels resolves to an identifier,
    the stored one being unset and the search finding nothing, the run
    returns the empty list: it has sent one channel search per channel,
    in order, and nothing else, and the store is as it was. *)
Theorem scrapeVideos_nothing_found (api : Api) (fuel : nat) (userId : string)
    (w : World) :
  userId <> "" ->
  select_channels userId (store w) <> [] ->
  (forall c, In c (select_channels userId (store w)) -> resolved api c = None) ->
  exists w',
    scrapeVideos api fuel (Some userId) w = (Returned [], w') /\
    store w' = store w /\
    requests w'
    = requests w
      ++ map (fun c => SearchChannel (ch_name c)) (select_channels userId (store w)).
Proof.
  intros Hu Hsome Hnone. apply String.eqb_neq in Hu.
  destruct (processChannels_nothing_found api fuel userId _ ([], []) w Hnone)
    as (w' & Hrun & Hs & _ & Hr).
  exists w'. split; [| split; assumption].
  unfold scrapeVideos. rewrite Hu. unfold bind at 1, query at 1.
  destruct (select_channels userId (store w)) as [| c cs] eqn:E; [congruence |].
  cbn [length Nat.eqb]. unfold bind. now rewrite Hrun.
Qed.

Lemma scrapeVideos_nothing_found_witness :
  exists w',
    scrapeVideos Sample.catalog 0 (Some "alice") (Sample.start More.unknown_channel)
    = (Returned [], w') /\
    store w' = More.unknown_channel /\
    requests w' = [SearchChannel "Nope"].
Proof.
  assert (Hne : "alice" <> "") by discriminate.
  apply (scrapeVideos_nothing_found Sample.catalog 0 "alice"
           (Sample.start More.unknown_channel) Hne).
  - discriminate.
  - intros c [<- | []]. reflexivity.
Defined.

(** The first step of a round of the video loop, when it returns:
    either the row was there, or a row is appended that carries the
    video's upstream identifier, the user and the channel. *)
Lemma video_row_step_new (api : Api) (channelId userId : string) (v : YouTubeVideo)
    (nv : list VideoRow) w videoId nv1 w1 :
  match select_video (yv_videoId v) userId (store w) with
  | [] =>
      bind (eval (newVideoOf v channelId userId))
        (fun newVideo =>
           bind (inserting (insert_video newVideo))
             (fun insertedVideo => ret (vr_id insertedVideo, nv ++ [insertedVideo])))
  | existing :: _ => ret (vr_id existing, nv)
  end w = (Returned (videoId, nv1), w1) ->
  (nv1 = nv /\ videos (store w1) = videos (store w)) \/
  exists row,
    nv1 = nv ++ [row] /\
    videos (store w1) = videos (store w) ++ [row] /\
    vr_videoId row = yv_videoId v /\ vr_userId row = userId /\
    vr_channelId row = channelId /\
    filter (video_is (yv_videoId v) userId) (videos (store w)) = [].
Proof.
  intros Hr.
  destruct (select_video (yv_videoId v) userId (store w)) as [| ex exs] eqn:Esel.
  - right. apply bind_returned in Hr. destruct Hr as (n & w0 & Hn & Hr).
    apply eval_returned in Hn. destruct Hn as [Hn ->].
    apply bind_returned in Hr. destruct Hr as (row & w0 & Hrow & Hr).
    unfold inserting, insert_video in Hrow. inversion Hrow; subst row w0.
    clear Hrow. inversion Hr; subst videoId nv1 w1. clear Hr.
    destruct (newVideoOf_key _ _ _ _ Hn) as [Hk1 Hk2].
    exists (new_video_row (next_id (store w)) (now w) n).
    cbn. do 4 (split; [auto |]). split.
    + unfold newVideoOf in Hn.
      destruct (yv_snippet v) as [sn |]; [| discriminate Hn].
      destruct (thumbnails sn) as [th |]; [| discriminate Hn].
      destruct (getBestThumbnail th); [| discriminate Hn].
      destruct (yv_statistics v); [| discriminate Hn].
      inversion Hn; subst. reflexivity.
    + unfold select_video in Esel. now apply firstn_1_nil in Esel.
  - left. inversion Hr; subst. auto.
Qed.

(** The rows a video loop reports as new. *)
Lemma processVideos_new_rows (api : Api) (fuel : nat) (userId channelId : string) :
  forall vs nv nc w nv' nc' w',
    processVideos api fuel userId channelId vs nv nc w = (Returned (nv', nc'), w') ->
    exists addedV,
      nv' = nv ++ addedV /\
      videos (store w') = videos (store w) ++ addedV /\
      Forall (fun r => vr_userId r = userId /\ vr_channelId r = channelId /\
                       exists v, In v vs /\ vr_videoId r = yv_videoId v) addedV.
Proof.
  induction vs as [| v rest IH]; intros nv nc w nv' nc' w' H.
  - inversion H; subst. exists []. rewrite !app_nil_r. repeat split. constructor.
  - cbn [processVideos] in H.
    apply bind_returned in H. destruct H as (existing & w1 & Hq & H).
    unfold query in Hq. inversion Hq; subst existing w1. clear Hq.
    apply bind_returned in H. destruct H as ([videoId nv1] & w2 & Hr & H).
    apply bind_returned in H. destruct H as (cs & w3 & Hcs & H).
    apply await_returned in Hcs. destruct Hcs as (rs & Hcs & ->).
    apply bind_returned in H. destruct H as (nc1 & w4 & Hins & H).
    cbn [fst snd] in Hins, H.
    destruct (insertComments_steady _ _ _ _ _ _ _ Hins) as [_ Hv4]. cbn in Hv4.
    destruct (IH _ _ _ _ _ _ H) as (addedV & -> & Hv & Hall).
    assert (Hall' : Forall
              (fun r => vr_userId r = userId /\ vr_channelId r = channelId /\
                        exists v0, In v0 (v :: rest) /\ vr_videoId r = yv_videoId v0)
              addedV).
    { revert Hall. apply Forall_impl. intros r (H1 & H2 & v0 & Hin & H3).
      repeat split; auto. exists v0. split; [now right | exact H3]. }
    destruct (video_row_step_new api channelId userId v nv w videoId nv1 w2 Hr)
      as [[-> Hv2] | (row & -> & Hv2 & Hk & Hu & Hc & _)].
    + exists addedV. split; [reflexivity |]. split; [congruence | exact Hall'].
    + exists (row :: addedV). split; [now rewrite <- app_assoc |].
      split; [rewrite Hv, Hv4, Hv2; now rewrite <- app_assoc |].
      constructor; [| exact Hall'].
      repeat split; auto. exists v. split; [now left | exact Hk].
Qed.

Lemma processChannel_new_rows (api : Api) (fuel : nat) (userId channelId : string) :
  forall acc w acc' w',
    processChannel api fuel userId channelId acc w = (Returned acc', w') ->
    exists addedV,
      fst acc' = fst acc ++ addedV /\
      videos (store w') = videos (store w) ++ addedV /\
      Forall (fun r => vr_userId r = userId /\ vr_channelId r = channelId /\
                       exists v, In v (listed api fuel channelId) /\
                                 vr_videoId r = yv_videoId v) addedV.
Proof.
  intros acc w [nv' nc'] w' H. unfold processChannel in H.
  apply bind_returned in H. destruct H as (ids & w1 & Hids & H).
  apply await_returned in Hids. destruct Hids as (rs & Hids & ->).
  apply bind_returned in H. destruct H as (vs & w2 & Hvs & H).
  apply await_returned in Hvs. destruct Hvs as (rs' & Hvs & ->).
  assert (vs = fst (fetchVideoDetails api ids)) as Evs.
  { assert (E : fetchVideoDetails api ids = (vs, rs')) by congruence.
    now rewrite E. }
  rewrite (listed_eq api fuel channelId ids rs Hids), <- Evs.
  apply (processVideos_new_rows _ _ _ _ _ _ _ _ _ _ _ H).
Qed.

Lemma processChannels_new_rows (api : Api) (fuel : nat) (userId : string) :
  forall chs acc w acc' w',
    processChannels api fuel userId chs acc w = (Returned acc', w') ->
    exists addedV,
      fst acc' = fst acc ++ addedV /\
      videos (store w') = videos (store w) ++ addedV /\
      Forall (fun r => vr_userId r = userId /\
                       exists c v,
                         In c chs /\ resolved api c = Some (vr_channelId r) /\
                         In v (listed api fuel (vr_channelId r)) /\
                         vr_videoId r = yv_videoId v) addedV.
Proof.
  induction chs as [| c rest IH]; intros acc w acc' w' H.
  - inversion H; subst. exists []. rewrite !app_nil_r. repeat split. constructor.
  - destruct (processChannels_cons api fuel userId c rest acc w)
      as (g1 & wa & _ & _ & Hva & Heq).
    rewrite Heq in H. clear Heq.
    assert (Hlift : forall acc1 w1,
               processChannels api fuel userId rest acc1 w1 = (Returned acc', w') ->
               exists addedV2,
                 fst acc' = fst acc1 ++ addedV2 /\
                 videos (store w') = videos (store w1) ++ addedV2 /\
                 Forall (fun r => vr_userId r = userId /\
                           exists c0 v,
                             In c0 (c :: rest) /\
                             resolved api c0 = Some (vr_channelId r) /\
                             In v (listed api fuel (vr_channelId r)) /\
                             vr_videoId r = yv_videoId v) addedV2).
    { intros acc1 w1 Hrun. destruct (IH _ _ _ _ Hrun) as (a2 & H1 & H2 & H3).
      exists a2. split; [exact H1 |]. split; [exact H2 |].
      revert H3. apply Forall_impl. intros r (Ho & c0 & v & Hin & Hrest).
      split; [exact Ho |]. exists c0, v. split; [now right | exact Hrest]. }
    destruct (resolved api c) as [channelId |] eqn:Eres.
    + apply bind_returned in H. destruct H as (acc1 & w1 & Hrun & H).
      destruct (processChannel_new_rows _ _ _ _ _ _ _ _ Hrun) as (a1 & A1 & A2 & A3).
      destruct (Hlift acc1 w1 H) as (a2 & B1 & B2 & B3).
      exists (a1 ++ a2). split; [now rewrite B1, A1, app_assoc |].
      split; [now rewrite B2, A2, Hva, app_assoc |].
      apply Forall_app. split; [| exact B3].
      revert A3. apply Forall_impl. intros r (Ho & Hc & v & Hin & Hk).
      split; [exact Ho |]. exists c, v. rewrite Hc.
      split; [now left |]. split; [exact Eres |]. split; assumption.
    + destruct (Hlift acc wa H) as (a2 & B1 & B2 & B3).
      exists a2. split; [exact B1 |]. split; [now rewrite B2, Hva | exact B3].
Qed.

(** X12. The list that [scrapeVideos] returns is exactly the list of
    video rows it appended to the store; the rows that were there are
    untouched. Each new row is owned by the user, belongs to a channel
    identifier that one of the user's channel rows resolved to, and
    carries the upstream identifier of a video listed for it. *)
Theorem scrapeVideos_new_rows (api : Api) (fuel : nat) (userId : string)
    (w w' : World) (vs : list VideoRow) :
  scrapeVideos api fuel (Some userId) w = (Returned vs, w') ->
  videos (store w') = videos (store w) ++ vs /\
  Forall (fun r => vr_userId r = userId /\
                   exists c v,
                     In c (select_channels userId (store w)) /\
                     resolved api c = Some (vr_channelId r) /\
                     In v (listed api fuel (vr_channelId r)) /\
                     vr_videoId r = yv_videoId v) vs.
Proof.
  intros H. unfold scrapeVideos in H.
  destruct (userId =? ""); [discriminate H |].
  unfold bind at 1, query at 1 in H.
  destruct (length (select_channels userId (store w)) =? 0)%nat; [discriminate H |].
  apply bind_returned in H. destruct H as (r & w1 & Hrun & Hret).
  inversion Hret; subst vs w1. clear Hret.
  destruct (processChannels_new_rows _ _ _ _ _ _ _ _ Hrun) as (a & H1 & H2 & H3).
  cbn in H1. rewrite H1. split; assumption.
Qed.

(** Alice's first run on the catalog reports her three new rows. *)
Lemma scrapeVideos_new_rows_witness :
  let run := scrapeVideos Sample.catalog 3 (Some "alice")
               (Sample.start (Sample.one_channel None)) in
  exists vs,
    fst run = Returned vs /\
    videos (store (snd run)) = vs /\
    Forall (fun r => vr_userId r = "alice") vs /\
    map vr_videoId vs = ["v1"; "v2"; "v3"].
Proof.
  intros run. exists (videos (store (snd run))).
  assert (Hout : fst run = Returned (videos (store (snd run))))
    by (vm_compute; reflexivity).
  assert (Hrun : scrapeVideos Sample.catalog 3 (Some "alice")
                   (Sample.start (Sample.one_channel None))
                 = (Returned (videos (store (snd run))), snd run)).
  { rewrite <- Hout. apply surjective_pairing. }
  destruct (scrapeVideos_new_rows Sample.catalog 3 "alice" _ _ _ Hrun) as [H1 H2].
  split; [exact Hout |]. split; [reflexivity |]. split.
  - revert H2. apply Forall_impl. intros r [Ho _]. exact Ho.
  - vm_compute. reflexivity.
Defined.

(* ------------------------------------------------------------------ *)
(** ** The dedup key *)

Lemma keeps_dedup_refl (w : World) : keeps_dedup w w.
Proof. unfold keeps_dedup. auto. Qed.

Lemma keeps_dedup_trans (w1 w2 w3 : World) :
  keeps_dedup w1 w2 -> keeps_dedup w2 w3 -> keeps_dedup w1 w3.
Proof. unfold keeps_dedup. auto. Qed.

Lemma same_videos_keeps_dedup (w w' : World) :
  videos (store w') = videos (store w) -> keeps_dedup w w'.
Proof. intros H Hd. now rewrite H. Qed.

Lemma steady_keeps_dedup {A : Type} (m : M A) :
  respects steady m -> respects keeps_dedup m.
Proof.
  intros Hm w out w' H. apply same_videos_keeps_dedup.
  apply (Hm _ _ _ H).
Qed.

Lemma steady_await {A : Type} (r : option (A * list Request)) :
  respects steady (await r).
Proof.
  intros w out w' H. destruct r as [[a rs] |]; cbn in H; inversion H; subst;
    split; reflexivity.
Qed.

Lemma deduplicated_insert (V : list VideoRow) (row : VideoRow) :
  filter (video_is (vr_videoId row) (vr_userId row)) V = [] ->
  deduplicated V -> deduplicated (V ++ [row]).
Proof.
  intros Hfil Hd. unfold deduplicated. rewrite map_app.
  apply NoDup_app; [exact Hd | repeat constructor; intros [] |].
  intros k Hk [<- | []]. apply in_map_iff in Hk. destruct Hk as (r & Hkey & Hr).
  assert (Hin : In r (filter (video_is (vr_videoId row) (vr_userId row)) V)).
  { apply filter_In. split; [exact Hr |]. unfold dedup_key in Hkey.
    inversion Hkey as [[H1 H2]]. unfold video_is.
    now rewrite H1, H2, !String.eqb_refl. }
  rewrite Hfil in Hin. destruct Hin.
Qed.

Lemma processVideos_keeps_dedup (api : Api) (fuel : nat) (userId channelId : string) :
  forall vs nv nc,
    respects keeps_dedup (processVideos api fuel userId channelId vs nv nc).
Proof.
  induction vs as [| v rest IH]; intros nv nc; cbn [processVideos].
  - apply respects_ret, keeps_dedup_refl.
  - assert (Hrest : forall r : RowId * list VideoRow,
               respects keeps_dedup
                 (bind (await (fetchVideoComments api fuel (yv_videoId v)))
                    (fun cs =>
                       bind (insertComments (fst r) userId cs nc)
                         (fun nc' =>
                            processVideos api fuel userId channelId rest (snd r) nc')))).
    { intros r. apply (respects_bind keeps_dedup_trans).
      - apply steady_keeps_dedup, steady_await.
      - intros cs. apply (respects_bind keeps_dedup_trans); [| intros; apply IH].
        apply steady_keeps_dedup, insertComments_steady. }
    intros w out w' H. unfold bind at 1, query at 1 in H.
    destruct (select_video (yv_videoId v) userId (store w)) as [| ex exs] eqn:Esel.
    + unfold bind at 1 in H. unfold bind at 1 in H.
      destruct (newVideoOf v channelId userId) as [n | e] eqn:En.
      * cbn [eval ret] in H. unfold bind at 1, inserting, insert_video in H.
        cbn [ret] in H.
        pose proof (Hrest _ _ _ _ H) as Hgo.
        intros Hd. apply Hgo. cbn. apply deduplicated_insert; [| exact Hd].
        cbn. destruct (newVideoOf_key _ _ _ _ En) as [-> ->].
        unfold select_video in Esel. now apply firstn_1_nil in Esel.
      * cbn [eval throw] in H. inversion H; subst. apply keeps_dedup_refl.
    + unfold bind at 1, ret at 1 in H. apply (Hrest _ _ _ _ H).
Qed.

Lemma processChannels_keeps_dedup (api : Api) (fuel : nat) (userId : string) :
  forall chs acc, respects keeps_dedup (processChannels api fuel userId chs acc).
Proof.
  assert (Hchannel : forall channelId acc,
             respects keeps_dedup (processChannel api fuel userId channelId acc)).
  { intros channelId acc. unfold processChannel.
    apply (respects_bind keeps_dedup_trans);
      [apply steady_keeps_dedup, steady_await |].
    intros ids. apply (respects_bind keeps_dedup_trans);
      [apply steady_keeps_dedup, steady_await |].
    intros vs. apply processVideos_keeps_dedup. }
  induction chs as [| c rest IH]; intros acc; cbn [processChannels].
  - apply respects_ret, keeps_dedup_refl.
  - destruct (or_null (ch_channelId c)) as [channelId |].
    + apply (respects_bind keeps_dedup_trans); [apply Hchannel | intros; apply IH].
    + apply (respects_bind keeps_dedup_trans);
        [apply steady_keeps_dedup, steady_await |].
      intros [channelId |]; [| apply IH].
      apply (respects_bind keeps_dedup_trans).
      { intros w out w' H. inversion H; subst. now apply same_videos_keeps_dedup. }
      intros d. apply (respects_bind keeps_dedup_trans).
      { intros w out w' H. inversion H; subst. now apply same_videos_keeps_dedup. }
      intros _. apply (respects_bind keeps_dedup_trans); [apply Hchannel |].
      intros; apply IH.
Qed.

(** X13. However a run of [scrapeVideos] ends, by return, by an
    exception or by running out of iterations, a store that held at
    most one video row per pair of upstream identifier and owner still
    does: the check before the insert keeps the dedup key unique. *)
Theorem scrapeVideos_keeps_dedup (api : Api) (fuel : nat) (session : option string)
    (w : World) out w' :
  scrapeVideos api fuel session w = (out, w') ->
  deduplicated (videos (store w)) ->
  deduplicated (videos (store w')).
Proof.
  intros H. unfold scrapeVideos in H.
  destruct session as [userId |]; [| inversion H; subst; auto].
  destruct (userId =? ""); [inversion H; subst; auto |].
  revert H. apply (respects_bind keeps_dedup_trans);
    [apply respects_query, keeps_dedup_refl |].
  intros chs. destruct (length chs =? 0)%nat;
    [apply respects_throw, keeps_dedup_refl |].
  apply (respects_bind keeps_dedup_trans);
    [apply processChannels_keeps_dedup | intros; apply respects_ret, keeps_dedup_refl].
Qed.

(** Alice's run on a store where Bob already holds "v1". *)
Lemma scrapeVideos_keeps_dedup_witness :
  deduplicated
    (videos (store (snd (scrapeVideos Sample.catalog 3 (Some "alice")
                           (Sample.start More.two_users))))).
Proof.
  apply (scrapeVideos_keeps_dedup Sample.catalog 3 (Some "alice")
           (Sample.start More.two_users) _ _ (surjective_pairing _)).
  repeat constructor. intros [].
Defined.

(* ------------------------------------------------------------------ *)
(** ** The comment rows of a run *)

Lemma comment_value_in (videoId : RowId) (userId : string) (c : YouTubeComment) n :
  In n (comment_value videoId userId c) ->
  nc_videoId n = videoId /\ nc_userId n = userId /\ nc_dislikeCount n = Num 0.
Proof.
  unfold comment_value, newCommentOf.
  destruct (yc_snippet c); [intros [<- | []]; auto | intros []].
Qed.

Lemma comment_value_length (videoId : RowId) (userId : string) (cs : list YouTubeComment) :
  length (flat_map (comment_value videoId userId) cs) <= length cs.
Proof.
  induction cs as [| c cs IH]; [cbn; lia |].
  cbn [flat_map length]. rewrite length_app.
  unfold comment_value at 1. destruct (newCommentOf c videoId userId); cbn; lia.
Qed.

Lemma comment_values_in (api : Api) (fuel : nat) (userId : string)
    (V : list VideoRow) (v : YouTubeVideo) n :
  In n (comment_values api fuel userId V v) ->
  nc_userId n = userId /\ nc_dislikeCount n = Num 0 /\
  exists row,
    In row V /\ vr_id row = nc_videoId n /\ vr_userId row = userId /\
    vr_videoId row = yv_videoId v.
Proof.
  unfold comment_values.
  destruct (filter (video_is (yv_videoId v) userId) V) as [| row t] eqn:Efil;
    [intros [] |].
  destruct (fetchVideoComments api fuel (yv_videoId v)) as [[cs rs] |]; [| intros []].
  intros Hin. apply in_flat_map in Hin. destruct Hin as (c & _ & Hn).
  destruct (comment_value_in _ _ _ _ Hn) as (H1 & H2 & H3).
  split; [exact H2 |]. split; [exact H3 |].
  assert (Hrow : In row (filter (video_is (yv_videoId v) userId) V))
    by (rewrite Efil; now left).
  apply filter_In in Hrow. destruct Hrow as [Hrow Hkey].
  unfold video_is in Hkey. apply andb_prop in Hkey. destruct Hkey as [K1 K2].
  apply String.eqb_eq in K1, K2. exists row. auto.
Qed.

Lemma comment_values_length (api : Api) (fuel : nat) (userId : string)
    (V : list VideoRow) (v : YouTubeVideo) :
  length (comment_values api fuel userId V v) <= 100.
Proof.
  unfold comment_values.
  destruct (filter (video_is (yv_videoId v) userId) V) as [| row t]; [cbn; lia |].
  destruct (fetchVideoComments api fuel (yv_videoId v)) as [[cs rs] |] eqn:E;
    [| cbn; lia].
  pose proof (comment_value_length (vr_id row) userId cs).
  pose proof (fetchVideoCommentsLoop_bound api (yv_videoId v) fuel [] None cs rs
                (Nat.le_0_l 100) E).
  lia.
Qed.

Lemma flat_map_bounded {A B : Type} (f : A -> list B) (k : nat) (l : list A) :
  (forall a, length (f a) <= k) -> length (flat_map f l) <= k * length l.
Proof.
  intros Hf. induction l as [| a l IH]; [cbn; lia |].
  cbn [flat_map length]. rewrite length_app. specialize (Hf a). lia.
Qed.

(** X14. When [scrapeVideos] returns, the comment rows that were there
    are untouched and the rows appended are at most 100 for each video
    listed. Each appended row is owned by the user, has dislike count
    0, and refers to a video row of the store that is owned by the
    user. *)
Theorem scrapeVideos_comment_rows (api : Api) (fuel : nat) (userId : string)
    (w w' : World) (vs : list VideoRow) :
  scrapeVideos api fuel (Some userId) w = (Returned vs, w') ->
  exists addedC,
    comments (store w') = comments (store w) ++ addedC /\
    length addedC
    <= 100 * length (listed_videos api fuel (select_channels userId (store w))) /\
    Forall (fun c => cr_userId c = userId /\ cr_dislikeCount c = Num 0 /\
                     exists row,
                       In row (videos (store w')) /\
                       vr_id row = cr_videoId c /\ vr_userId row = userId)
           addedC.
Proof.
  intros H. unfold scrapeVideos in H.
  destruct (userId =? ""); [discriminate H |].
  unfold bind at 1, query at 1 in H.
  destruct (length (select_channels userId (store w)) =? 0)%nat; [discriminate H |].
  apply bind_returned in H. destruct H as (r & w1 & Hrun & Hret).
  inversion Hret; subst vs w1. clear Hret.
  destruct (processChannels_returned _ _ _ _ _ _ _ _ Hrun)
    as (_ & addedC & _ & _ & _ & _ & HC & _ & _ & _ & Hvals).
  exists addedC. split; [exact HC |]. split.
  - rewrite <- (length_map values_of), Hvals.
    apply flat_map_bounded. intros v. apply comment_values_length.
  - apply Forall_forall. intros c Hc.
    assert (Hin : In (values_of c) (map values_of addedC)) by now apply in_map.
    rewrite Hvals in Hin. apply in_flat_map in Hin. destruct Hin as (v & _ & Hn).
    destruct (comment_values_in _ _ _ _ _ _ Hn) as (H1 & H2 & row & H3 & H4 & H5 & _).
    split; [exact H1 |]. split; [exact H2 |]. now exists row.
Qed.

(** Alice's run on the catalog: 3 + 100 + 1 comment rows for her three
    videos. *)
Lemma scrapeVideos_comment_rows_witness :
  let run := scrapeVideos Sample.catalog 3 (Some "alice")
               (Sample.start (Sample.one_channel None)) in
  exists addedC,
    comments (store (snd run)) = addedC /\
    length addedC <= 300 /\
    Forall (fun c => cr_userId c = "alice" /\ cr_dislikeCount c = Num 0) addedC.
Proof.
  intros run.
  assert (Hout : fst run = Returned (videos (store (snd run))))
    by (vm_compute; reflexivity).
  assert (Hrun : scrapeVideos Sample.catalog 3 (Some "alice")
                   (Sample.start (Sample.one_channel None))
                 = (Returned (videos (store (snd run))), snd run)).
  { rewrite <- Hout. apply surjective_pairing. }
  destruct (scrapeVideos_comment_rows Sample.catalog 3 "alice" _ _ _ Hrun)
    as (addedC & HC & Hlen & Hall).
  exists addedC. split; [exact HC |]. split; [exact Hlen |].
  revert Hall. apply Forall_impl. intros c (H1 & H2 & _). auto.
Defined.

(* ------------------------------------------------------------------ *)
(** ** What a run may write *)












(* ------------------------------------------------------------------ *)
(** ** The identifier a run leaves on a channel row *)



(* ------------------------------------------------------------------ *)
(** ** Two edges *)

Lemma fetchAllVideosLoop_endless (api : Api) (channelId : string) :
  (forall tok, exists data,
      search_videos api channelId tok = Ok data /\
      truthy (sl_nextPageToken data) = true) ->
  forall fuel acc tok, fetchAllVideosLoop api fuel channelId acc tok = None.
Proof.
  intros Hnext. induction fuel as [| fuel IH]; intros acc tok; [reflexivity |].
  cbn [fetchAllVideosLoop]. destruct (Hnext tok) as (data & Hcall & Htok).
  now rewrite Hcall, Htok, IH.
Qed.

(** X17. The video listing has no cap of its own: against an upstream
    that answers every page of a channel with a continuation token,
    [fetchAllVideosForChannel] returns within no number of iterations,
    and the step of [scrapeVideos] that handles the channel does not
    return either. *)
Theorem fetchAllVideosForChannel_endless (api : Api) (channelId userId : string) :
  (forall tok, exists data,
      search_videos api channelId tok = Ok data /\
      truthy (sl_nextPageToken data) = true) ->
  forall fuel,
    fetchAllVideosForChannel api fuel channelId = None /\
    forall acc w, processChannel api fuel userId channelId acc w = (OutOfFuel, w).
Proof.
  intros Hnext fuel.
  assert (H : fetchAllVideosForChannel api fuel channelId = None)
    by now apply fetchAllVideosLoop_endless.
  split; [exact H |]. intros acc w. unfold processChannel, bind. now rewrite H.
Qed.

Lemma fetchAllVideosForChannel_endless_witness :
  fetchAllVideosForChannel More.endless 1000 "UCX1" = None.
Proof.
  apply (fetchAllVideosForChannel_endless More.endless "UCX1" "alice").
  intros tok. eexists. split; reflexivity.
Defined.

Lemma refreshVideos_throws (api : Api) :
  forall vs w,
    (exists v, In v vs /\ has_details api (vr_videoId v) = true /\
               upstream_counters api (vr_videoId v) = None) ->
    exists w',
      refreshVideos api vs w
      = (Threw (TypeError "updatedVideo.statistics is undefined"), w').
Proof.
  induction vs as [| v0 rest IH]; intros w (v & Hin & Hhas & Hnone); [destruct Hin |].
  cbn [refreshVideos]. unfold bind at 1. cbn [await].
  unfold has_details, upstream_counters in Hhas, Hnone.
  cbn [fst fetchVideoDetails] in Hhas, Hnone |- *.
  destruct Hin as [-> | Hin].
  - destruct (match videos_list api [vr_videoId v] with
              | Ok data => _ | Failed => _ end) as [| d ds]; [discriminate Hhas |].
    unfold statsUpdateOf.
    destruct (yv_statistics d); [discriminate Hnone |].
    unfold bind, throw. eauto.
  - assert (Hrest : exists v1, In v1 rest /\ has_details api (vr_videoId v1) = true /\
                               upstream_counters api (vr_videoId v1) = None).
    { exists v. unfold has_details, upstream_counters.
      cbn [fst fetchVideoDetails]. auto. }
    destruct (match videos_list api [vr_videoId v0] with
              | Ok data => _ | Failed => _ end) as [| d ds].
    + unfold bind at 1, ret at 1. apply (IH _ Hrest).
    + unfold statsUpdateOf. destruct (yv_statistics d) as [st |].
      * unfold bind at 1. unfold bind at 1. unfold bind at 1.
        cbn [newDate ret exec]. apply (IH _ Hrest).
      * unfold bind, throw. eauto.
Qed.

(** X18. When the upstream has, for one of the user's videos, a record
    without its statistics object, [updateVideoStatistics] does not
    return: it throws a [TypeError]. Channels and comments are as they
    were, and no video row was added or removed. *)
Theorem updateVideoStatistics_throws (api : Api) (userId : string) (w : World) :
  userId <> "" ->
  (exists v, In v (select_videos userId (store w)) /\
             has_details api (vr_videoId v) = true /\
             upstream_counters api (vr_videoId v) = None) ->
  exists w',
    updateVideoStatistics api (Some userId) w
    = (Threw (TypeError "updatedVideo.statistics is undefined"), w') /\
    channels (store w') = channels (store w) /\
    comments (store w') = comments (store w) /\
    length (videos (store w')) = length (videos (store w)).
Proof.
  intros Hu Hbad. apply String.eqb_neq in Hu.
  destruct (refreshVideos_throws api _ w Hbad) as (w' & Hrun).
  exists w'. split.
  - unfold updateVideoStatistics. rewrite Hu. unfold bind, query. exact Hrun.
  - destruct (refreshVideos_frame api _ _ _ _ Hrun) as (Hch & Hc & _ & f & Hf & _).
    split; [exact Hch |]. split; [exact Hc |]. rewrite Hf. apply length_map.
Qed.

Lemma updateVideoStatistics_throws_witness :
  exists w',
    updateVideoStatistics Sample.bare (Some "alice") More.refresh_bare
    = (Threw (TypeError "updatedVideo.statistics is undefined"), w') /\
    length (videos (store w')) = 2.
Proof.
  assert (Hne : "alice" <> "") by discriminate.
  destruct (updateVideoStatistics_throws Sample.bare "alice" More.refresh_bare Hne)
    as (w' & Hrun & _ & _ & Hlen).
  - exists (Sample.video_row 0 "v1" "alice").
    split; [now left | split; reflexivity].
  - exists w'. split; [exact Hrun | exact Hlen].
Defined.
